(** * Verification of the go-conf configuration loader

    A shallow embedding of [loader.go] (package [conf]): the [Loader]
    struct, its behaviour flags, the lookup-path resolution
    ([createLookupPaths], [user], [isTest]) and the layered [Load] loop.

    Go features are modelled as follows.
    - [int] is a 64-bit two's-complement integer: a [Z] with the
      wrap-around of [+] written out ([Go.wrap]).
    - [string] and [[]byte] are byte sequences ([string], [list byte]).
    - A method with a pointer receiver is a computation in the monad [M]:
      it threads the [Loader], may panic with a Go run-time error, and
      records in a log the calls it makes out of the package.
    - The process environment ([os.Args], [flag.Args()], the file system
      seen by [ioutil.ReadFile], [user.Current()]) is a [Process] record.
    - Library functions that the loader only calls ([filepath.Join],
      [strings.TrimSpace], [json.Unmarshal]) are parameters of the
      development. *)

From Stdlib Require Import ZArith List Bool Lia.
From Stdlib.Strings Require Import String Ascii Byte.
Import ListNotations.

Open Scope string_scope.
Open Scope Z_scope.
Open Scope list_scope.

(** ** Go primitives *)

Module Go.

(** [int] on a 64-bit platform. *)
Definition minInt : Z := - 2 ^ 63.
Definition maxInt : Z := 2 ^ 63 - 1.

(** Two's-complement wrap-around of an arithmetic result. *)
Definition wrap (z : Z) : Z := (z + 2 ^ 63) mod 2 ^ 64 - 2 ^ 63.

Definition isInt (z : Z) : Prop := minInt <= z <= maxInt.

(** The builtin [len] on slices and on strings. *)
Definition len {A : Type} (s : list A) : Z := Z.of_nat (List.length s).
Definition strlen (s : string) : Z := Z.of_nat (String.length s).

(** The value of type [error] is identified with its message. *)
Definition error : Type := string.

(** A call returning [(v, err)]. *)
Inductive result (A : Type) : Type :=
| Ok (v : A)
| Err (err : error).
Arguments Ok {A} v.
Arguments Err {A} err.

(** Run-time panics raised by indexing and slicing. *)
Inductive panic : Type :=
| IndexOutOfRange (i n : Z)
| SliceBoundsOutOfRange (lo n : Z).

(** Calls that leave the process. *)
Inductive event : Type :=
| CallReadFile (path : string)
| CallUnmarshal (data : list byte)
| CallUserCurrent.

(** [s[lo:]] on a string, once the bounds check has passed. *)
Definition strFrom (lo : Z) (s : string) : string :=
  substring (Z.to_nat lo) (String.length s - Z.to_nat lo) s.

End Go.

Import Go.

(** ** The process environment *)

Record Process : Type := {
  os_Args : list string;
  flag_Args : list string;
  ioutil_ReadFile : string -> result (list byte);
  user_Current : result string;
  osext_ExecutableFolder : result string
}.

(** ** The loader *)

Record Loader : Type := {
  RootPath : string;
  PreservedArgs : Z;
  lookupPaths : list string;
  loadedPaths : list string;
  skippedPaths : list string;
  loaderFlags : Z
}.

Definition UseTest : Z := Z.shiftl 1 0.
Definition UseDotUser : Z := Z.shiftl 1 1.
Definition UseArgumentPaths : Z := Z.shiftl 1 2.
Definition UseExecutablePath : Z := Z.shiftl 1 3.
Definition IgnoreMissingFiles : Z := Z.shiftl 1 4.
Definition IgnoreInvalidFiles : Z := Z.shiftl 1 5.

Definition UseFlag : Z := -1.

Definition Implements (l : Loader) (behaviour : Z) : bool :=
  Z.land (loaderFlags l) behaviour >? 0.

(** Field assignments [l.f = v]. *)
Definition set_lookupPaths (v : list string) (l : Loader) : Loader :=
  {| RootPath := RootPath l; PreservedArgs := PreservedArgs l;
     lookupPaths := v; loadedPaths := loadedPaths l;
     skippedPaths := skippedPaths l; loaderFlags := loaderFlags l |}.

Definition set_loadedPaths (v : list string) (l : Loader) : Loader :=
  {| RootPath := RootPath l; PreservedArgs := PreservedArgs l;
     lookupPaths := lookupPaths l; loadedPaths := v;
     skippedPaths := skippedPaths l; loaderFlags := loaderFlags l |}.

Definition set_skippedPaths (v : list string) (l : Loader) : Loader :=
  {| RootPath := RootPath l; PreservedArgs := PreservedArgs l;
     lookupPaths := lookupPaths l; loadedPaths := loadedPaths l;
     skippedPaths := v; loaderFlags := loaderFlags l |}.

(** ** Computations on a loader *)

(** The outcome of running a method: it returns a value or panics; in both
    cases the receiver's final state and the calls made are observable. *)
Inductive Res (A : Type) : Type :=
| Ret (a : A) (l : Loader) (log : list event)
| Panic (p : panic) (l : Loader) (log : list event).
Arguments Ret {A} a l log.
Arguments Panic {A} p l log.

Definition M (A : Type) : Type := Loader -> Res A.

Definition ret {A : Type} (a : A) : M A := fun l => Ret a l [].

(** The outcome [r] of a continuation, after the calls [log1] made before it. *)
Definition after {A : Type} (log1 : list event) (r : Res A) : Res A :=
  match r with
  | Ret a l log => Ret a l (log1 ++ log)
  | Panic p l log => Panic p l (log1 ++ log)
  end.

Definition bind {A B : Type} (m : M A) (k : A -> M B) : M B :=
  fun l =>
    match m l with
    | Ret a l1 log1 => after log1 (k a l1)
    | Panic p l1 log1 => Panic p l1 log1
    end.

Definition raise {A : Type} (p : panic) : M A := fun l => Panic p l [].
Definition get : M Loader := fun l => Ret l l [].
Definition modify (f : Loader -> Loader) : M unit := fun l => Ret tt (f l) [].
Definition emit (e : event) : M unit := fun l => Ret tt l [e].

Declare Scope go_scope.
Delimit Scope go_scope with go.
Notation "x <- m ;; k" := (bind m (fun x => k))
  (at level 100, m at next level, right associativity) : go_scope.
Notation "m ;; k" := (bind m (fun _ => k))
  (at level 100, right associativity) : go_scope.
Open Scope go_scope.

(** The receiver's state when the method stops, normally or not. *)
Definition final {A : Type} (r : Res A) : Loader :=
  match r with Ret _ l _ => l | Panic _ l _ => l end.

Definition returns {A : Type} (r : Res A) : bool :=
  match r with Ret _ _ _ => true | Panic _ _ _ => false end.

(** Checked indexing [s[i]] and slicing [s[lo:]]. *)
Definition index {A : Type} (s : list A) (i : Z) : M A :=
  if i <? 0 then raise (IndexOutOfRange i (len s))
  else match nth_error s (Z.to_nat i) with
       | Some a => ret a
       | None => raise (IndexOutOfRange i (len s))
       end.

Definition sliceFrom {A : Type} (s : list A) (lo : Z) : M (list A) :=
  if (lo <? 0) || (len s <? lo) then raise (SliceBoundsOutOfRange lo (len s))
  else ret (skipn (Z.to_nat lo) s).

Definition strSliceFrom (s : string) (lo : Z) : M string :=
  if (lo <? 0) || (strlen s <? lo) then raise (SliceBoundsOutOfRange lo (strlen s))
  else ret (strFrom lo s).

Section Loader.

(** The process the loader runs in. *)
Variable P : Process.

(** [filepath.Join(elem...)] and [strings.TrimSpace(s)]. *)
Variable filepath_Join : list string -> string.
Variable strings_TrimSpace : string -> string.

(** The type of the value behind [config interface{}] and
    [json.Unmarshal(data, config)]: the value left in the target and the
    error, if any. *)
Variable T : Type.
Variable json_Unmarshal : list byte -> T -> T * option error.

Definition ReadFile (path : string) : M (result (list byte)) :=
  emit (CallReadFile path) ;; ret (ioutil_ReadFile P path).

Definition Current : M (result string) :=
  emit CallUserCurrent ;; ret (user_Current P).

Definition Unmarshal (data : list byte) (config : T) : M (T * option error) :=
  emit (CallUnmarshal data) ;; ret (json_Unmarshal data config).

Definition NewLoader (flags : Z) : result Loader :=
  let loader := {| RootPath := EmptyString; PreservedArgs := UseFlag;
                   lookupPaths := []; loadedPaths := []; skippedPaths := [];
                   loaderFlags := flags |} in
  if Implements loader UseExecutablePath then
    match osext_ExecutableFolder P with
    | Err err => Err err
    | Ok executableFolder =>
        Ok {| RootPath := executableFolder; PreservedArgs := UseFlag;
              lookupPaths := []; loadedPaths := []; skippedPaths := [];
              loaderFlags := flags |}
    end
  else
    Ok {| RootPath := "."; PreservedArgs := UseFlag;
          lookupPaths := []; loadedPaths := []; skippedPaths := [];
          loaderFlags := flags |}.

Definition isTest : M bool :=
  runfile <- index (os_Args P) 0 ;;
  suffix <- strSliceFrom runfile (wrap (strlen runfile - 5)) ;;
  ret (String.eqb suffix ".test").

(** [user]: the first component of the inner block is [Some u] when the
    method has returned [u] from inside the [if]. *)
Definition user : M string :=
  l <- get ;;
  early <- (if Implements l UseDotUser then
              r <- ReadFile (filepath_Join [RootPath l; ".user"]) ;;
              match r with
              | Ok fileContents =>
                  ret (Some (strings_TrimSpace (string_of_list_byte fileContents)))
              | Err _ => ret None
              end
            else ret None) ;;
  match early with
  | Some u => ret u
  | None =>
      r <- Current ;;
      match r with
      | Err _ => ret EmptyString
      | Ok Username => ret Username
      end
  end.

(** [createLookupPaths], lines 138-151: the argument branch. Its value is
    [true] exactly when it executed the [return] of line 148. *)
Definition argumentPaths : M bool :=
  l <- get ;;
  if Implements l UseArgumentPaths then
    if PreservedArgs l =? UseFlag then
      let flagArgs := flag_Args P in
      (if len flagArgs >? 0
       then modify (set_lookupPaths flagArgs)
       else ret tt) ;;
      ret false
    else
      let splitSize := wrap (PreservedArgs l + 1) in
      if len (os_Args P) >? splitSize then
        tail <- sliceFrom (os_Args P) splitSize ;;
        modify (set_lookupPaths tail) ;;
        ret true
      else ret false
  else ret false.

(** [createLookupPaths], lines 153-164: the base path and the mixin. *)
Definition defaultPaths : M unit :=
  l <- get ;;
  modify (set_lookupPaths [filepath_Join [RootPath l; "config.json"]]) ;;
  test <- (if Implements l UseTest then isTest else ret false) ;;
  if (test : bool) then
    modify (fun l => set_lookupPaths
              (lookupPaths l ++
               [filepath_Join [RootPath l; "config"; "mixins"; "test.json"]]) l)
  else
    u <- user ;;
    if strlen u >? 0 then
      modify (fun l => set_lookupPaths
                (lookupPaths l ++
                 [filepath_Join [RootPath l; "config"; "mixins";
                                 (u ++ ".json")%string]]) l)
    else ret tt.

Definition createLookupPaths : M unit :=
  returned <- argumentPaths ;;
  if (returned : bool) then ret tt else defaultPaths.

(** The [for ... range l.lookupPaths] loop of [Load]; the result is the
    target as the loop leaves it and the error returned from inside the
    loop, if any. *)
Fixpoint rangeLookupPaths (paths : list string) (config : T)
  : M (T * option error) :=
  match paths with
  | [] => ret (config, None)
  | configPath :: rest =>
      l <- get ;;
      r <- ReadFile configPath ;;
      match r with
      | Err err =>
          if negb (Implements l IgnoreMissingFiles) then ret (config, Some err)
          else
            modify (fun l => set_skippedPaths (skippedPaths l ++ [configPath]) l) ;;
            rangeLookupPaths rest config
      | Ok configData =>
          d <- Unmarshal configData config ;;
          match snd d with
          | Some err =>
              if negb (Implements l IgnoreInvalidFiles) then ret (fst d, Some err)
              else
                modify (fun l => set_skippedPaths (skippedPaths l ++ [configPath]) l) ;;
                rangeLookupPaths rest (fst d)
          | None =>
              modify (fun l => set_loadedPaths (loadedPaths l ++ [configPath]) l) ;;
              rangeLookupPaths rest (fst d)
          end
      end
  end.

Definition Load (config : T) : M (T * option error) :=
  createLookupPaths ;;
  modify (set_loadedPaths []) ;;
  modify (set_skippedPaths []) ;;
  l <- get ;;
  rangeLookupPaths (lookupPaths l) config.

Definition LoadedPaths : M (list string) :=
  l <- get ;; ret (loadedPaths l).

Definition SkippedPaths : M (list string) :=
  l <- get ;; ret (skippedPaths l).

End Loader.

(** The test under which [createLookupPaths] reaches the [return] of
    line 148: argument paths are requested, [PreservedArgs] is a count and
    [os.Args] is longer than [PreservedArgs + 1]. *)
Definition argumentShortCircuit (P : Process) (l : Loader) : bool :=
  Implements l UseArgumentPaths
  && negb (PreservedArgs l =? UseFlag)
  && (len (os_Args P) >? wrap (PreservedArgs l + 1)).

(** Two loaders with the same configuration: they may differ in the
    path lists only. *)
Definition sameConfig (l1 l2 : Loader) : Prop :=
  RootPath l1 = RootPath l2 /\
  PreservedArgs l1 = PreservedArgs l2 /\
  loaderFlags l1 = loaderFlags l2.

(** ** Order-preserving splits

    [Merge xs ys zs]: the list [zs] is split, occurrence by occurrence and
    keeping the order, into [xs] and [ys]. *)
Inductive Merge {A : Type} : list A -> list A -> list A -> Prop :=
| Merge_nil : Merge [] [] []
| Merge_left (x : A) (xs ys zs : list A) :
    Merge xs ys zs -> Merge (x :: xs) ys (x :: zs)
| Merge_right (y : A) (xs ys zs : list A) :
    Merge xs ys zs -> Merge xs (y :: ys) (y :: zs).

Definition disjoint {A : Type} (xs ys : list A) : Prop :=
  forall x, In x xs -> ~ In x ys.

(** [s] ends with [suffix]. *)
Definition HasSuffix (s suffix : string) : Prop :=
  exists stem, s = (stem ++ suffix)%string.

(** ** Reference notions for the loop of [Load] *)

(** The contents of the readable paths, in order. *)
Definition readable (P : Process) (paths : list string) : list (list byte) :=
  flat_map (fun path =>
              match ioutil_ReadFile P path with
              | Ok data => [data]
              | Err _ => []
              end) paths.

(** The target after decoding the documents one after the other, each into
    the target the previous one left, whether it reported an error or not. *)
Definition decodeAll {T : Type}
    (json_Unmarshal : list byte -> T -> T * option error)
    (docs : list (list byte)) (config : T) : T :=
  fold_left (fun c data => fst (json_Unmarshal data c)) docs config.

(** One read per path, in order, with one decode after each read that
    succeeds. *)
Definition expectedCalls (P : Process) (paths : list string) : list event :=
  flat_map (fun path =>
              match ioutil_ReadFile P path with
              | Ok data => [CallReadFile path; CallUnmarshal data]
              | Err _ => [CallReadFile path]
              end) paths.

(** The process [P] with another flag remainder. *)
Definition withFlagArgs (flagArgs : list string) (P : Process) : Process :=
  {| os_Args := os_Args P;
     flag_Args := flagArgs;
     ioutil_ReadFile := ioutil_ReadFile P;
     user_Current := user_Current P;
     osext_ExecutableFolder := osext_ExecutableFolder P |}.

(** ** A concrete process, used to run the loader *)

Module Fixture.

(** Stand-in for [filepath.Join]: the non-empty elements separated by a
    slash. It is [filepath.Join] on elements that are already clean (no
    dot elements, no doubled or trailing separator), which is all the
    examples use. *)
Definition join (elem : list string) : string :=
  String.concat "/"
    (filter (fun e => negb (String.eqb e EmptyString)) elem).

(** Stand-in for [strings.TrimSpace] on ASCII text: the white space of
    Go's [asciiSpace] table is tab, line feed, vertical tab, form feed,
    carriage return and space. *)
Definition isSpace (a : ascii) : bool :=
  let n := nat_of_ascii a in
  (Nat.eqb n 32 || (Nat.leb 9 n && Nat.leb n 13))%bool.

Fixpoint trimLeft (s : string) : string :=
  match s with
  | EmptyString => EmptyString
  | String a s' => if isSpace a then trimLeft s' else s
  end.

Fixpoint trimRight (s : string) : string :=
  match s with
  | EmptyString => EmptyString
  | String a s' =>
      match trimRight s' with
      | EmptyString => if isSpace a then EmptyString else String a EmptyString
      | t => String a t
      end
  end.

Definition trimSpace (s : string) : string := trimRight (trimLeft s).

Definition bytes (s : string) : list byte := list_byte_of_string s.

(** The target [struct { Name string; Port int }]. *)
Record Config : Type := { Name : string; Port : Z }.

(** Stand-in for [json.Unmarshal] into [*Config], given by the documents
    of the examples:
    - [base] assigns both fields;
    - [override] assigns [Port] only;
    - [mistyped] has a well-typed [Name] and a string for [Port]:
      [Name] is assigned and the type error for [Port] is returned;
    - anything else is not a JSON document: a syntax error, found
      before any field is assigned. *)
Definition unmarshal (data : list byte) (config : Config) : Config * option error :=
  let doc := string_of_list_byte data in
  if String.eqb doc "base" then
    ({| Name := "svc"; Port := 8080 |}, None)
  else if String.eqb doc "override" then
    ({| Name := Name config; Port := 9090 |}, None)
  else if String.eqb doc "mistyped" then
    ({| Name := "dev"; Port := Port config |},
     Some "json: cannot unmarshal string into Go struct field Config.Port of type int")
  else (config, Some "invalid character looking for beginning of value").

(** Stand-in for [json.Unmarshal] into a target whose [UnmarshalJSON]
    method accepts one assignment and rejects any later one; the target
    is the document it holds, if any. *)
Definition unmarshalOnce (data : list byte) (config : option (list byte))
  : option (list byte) * option error :=
  match config with
  | None => (Some data, None)
  | Some _ => (config, Some "value already set")
  end.

Definition zero : Config := {| Name := EmptyString; Port := 0 |}.

(** A file system with four files under [/srv/app]. *)
Definition readFile (path : string) : result (list byte) :=
  if String.eqb path "/srv/app/config.json" then Ok (bytes "base")
  else if String.eqb path "/srv/app/config/mixins/alice.json" then Ok (bytes "override")
  else if String.eqb path "/srv/app/config/mixins/test.json" then Ok (bytes "mistyped")
  else if String.eqb path "/srv/app/.user" then Ok (bytes (String.append "alice" (String "010" EmptyString)))
  else Err (String.append "open " (String.append path ": no such file or directory")).

Definition processAs (who : result string) (args flagArgs : list string)
  : Process :=
  {| os_Args := args;
     flag_Args := flagArgs;
     ioutil_ReadFile := readFile;
     user_Current := who;
     osext_ExecutableFolder := Ok "/srv/app" |}.

(** The process of OS user [bob], and a process whose user lookup fails. *)
Definition process : list string -> list string -> Process :=
  processAs (Ok "bob").

Definition orphan : list string -> list string -> Process :=
  processAs (Err "user: Current requires cgo or $USER set in environment").

Definition loader (flags preservedArgs : Z) : Loader :=
  {| RootPath := "/srv/app"; PreservedArgs := preservedArgs;
     lookupPaths := []; loadedPaths := []; skippedPaths := [];
     loaderFlags := flags |}.

End Fixture.

(** ** Facts about the Go primitives *)

Lemma wrap_small (z : Z) : isInt z -> wrap z = z.
Proof.
  unfold isInt, minInt, maxInt, wrap. intros Hz.
  rewrite Z.mod_small by lia. lia.
Qed.

Lemma length_append (a b : string) :
  String.length (a ++ b) = (String.length a + String.length b)%nat.
Proof. induction a as [|c a IH]; simpl; [reflexivity | now rewrite IH]. Qed.

Lemma substring_all (s : string) : substring 0 (String.length s) s = s.
Proof. induction s as [|c s IH]; simpl; [reflexivity | now rewrite IH]. Qed.

Lemma substring_append_r (a b : string) :
  substring (String.length a) (String.length b) (a ++ b) = b.
Proof. induction a as [|c a IH]; simpl; [apply substring_all | exact IH]. Qed.

Lemma substring_split (n : nat) : forall s : string,
  (n <= String.length s)%nat ->
  s = (substring 0 n s ++ substring n (String.length s - n) s)%string.
Proof.
  induction n as [|n IH]; intros s Hn.
  - rewrite Nat.sub_0_r, substring_all. now destruct s.
  - destruct s as [|c s]; simpl in Hn; [lia|].
    simpl. f_equal. apply IH. lia.
Qed.

(** [s[len(s)-k:] == suffix] decides whether [s] ends with [suffix], for a
    suffix of [k] bytes and a string of at least [k] bytes. *)
Lemma strFrom_suffix (s suffix : string) :
  strlen suffix <= strlen s ->
  (strFrom (strlen s - strlen suffix) s =? suffix)%string = true <->
  HasSuffix s suffix.
Proof.
  unfold strlen, strFrom, HasSuffix. intros Hlen.
  replace (Z.to_nat (Z.of_nat (String.length s) - Z.of_nat (String.length suffix)))
    with (String.length s - String.length suffix)%nat by lia.
  rewrite String.eqb_eq. split.
  - intros H. exists (substring 0 (String.length s - String.length suffix) s).
    pose proof (substring_split (String.length s - String.length suffix) s) as Hs.
    rewrite H in Hs. apply Hs. lia.
  - intros [stem ->]. rewrite length_append.
    replace (String.length stem + String.length suffix - String.length suffix)%nat
      with (String.length stem) by lia.
    replace (String.length stem + String.length suffix - String.length stem)%nat
      with (String.length suffix) by lia.
    apply substring_append_r.
Qed.

(** ** Facts about outcomes *)

Lemma after_nil {A : Type} (r : Res A) : after [] r = r.
Proof. now destruct r. Qed.

Lemma after_after {A : Type} (log1 log2 : list event) (r : Res A) :
  after log1 (after log2 r) = after (log1 ++ log2) r.
Proof. destruct r; simpl; now rewrite app_assoc. Qed.

(** Brings nested [after] to a single one. *)
Ltac merge_logs :=
  repeat (rewrite after_after || rewrite after_nil); cbn [app].

(** ** Facts about order-preserving splits *)

Section MergeFacts.

Context {A : Type}.
Implicit Types xs ys zs : list A.

Lemma Merge_In xs ys zs :
  Merge xs ys zs -> forall a, In a zs <-> In a xs \/ In a ys.
Proof.
  induction 1 as [| x xs ys zs _ IH | y xs ys zs _ IH]; intros a; cbn.
  - tauto.
  - rewrite IH. tauto.
  - rewrite IH. tauto.
Qed.

(** Without repetition in [zs], the two parts share no element. *)
Lemma Merge_NoDup_disjoint xs ys zs :
  Merge xs ys zs -> NoDup zs -> disjoint xs ys.
Proof.
  induction 1 as [| x xs ys zs Hm IH | y xs ys zs Hm IH];
    intros Hnodup a Hx Hy.
  - destruct Hx.
  - inversion Hnodup as [| ? ? Hnotin Hnodup']; subst.
    destruct Hx as [<- | Hx].
    + apply Hnotin. apply (Merge_In _ _ _ Hm). now right.
    + exact (IH Hnodup' a Hx Hy).
  - inversion Hnodup as [| ? ? Hnotin Hnodup']; subst.
    destruct Hy as [<- | Hy].
    + apply Hnotin. apply (Merge_In _ _ _ Hm). now left.
    + exact (IH Hnodup' a Hx Hy).
Qed.

End MergeFacts.

(** ** Path resolution *)

Section Resolver.

Variable P : Process.
Variable filepath_Join : list string -> string.
Variable strings_TrimSpace : string -> string.

Local Abbreviation user := (user P filepath_Join strings_TrimSpace).
Local Abbreviation defaultPaths :=
  (defaultPaths P filepath_Join strings_TrimSpace).
Local Abbreviation createLookupPaths :=
  (createLookupPaths P filepath_Join strings_TrimSpace).

(** [isTest] reads [os.Args] only: it neither changes the loader nor
    calls out of the process. *)
Lemma isTest_run (l : Loader) :
  isTest P l =
  match os_Args P with
  | [] => Panic (IndexOutOfRange 0 0) l []
  | runfile :: _ =>
      let lo := wrap (strlen runfile - 5) in
      if (lo <? 0) || (strlen runfile <? lo)
      then Panic (SliceBoundsOutOfRange lo (strlen runfile)) l []
      else Ret (strFrom lo runfile =? ".test")%string l []
  end.
Proof.
  unfold isTest, bind, index, strSliceFrom, raise, ret.
  destruct (os_Args P) as [|runfile rest]; simpl; [reflexivity|].
  destruct ((wrap (strlen runfile - 5) <? 0) || (strlen runfile <? wrap (strlen runfile - 5)));
    reflexivity.
Qed.

Lemma isTest_frame (l l' : Loader) :
  isTest P l' =
  match isTest P l with
  | Ret b _ log => Ret b l' log
  | Panic p _ log => Panic p l' log
  end.
Proof.
  rewrite !isTest_run. destruct (os_Args P) as [|runfile rest]; [reflexivity|].
  cbv zeta. destruct (_ || _); reflexivity.
Qed.

(** [user] always returns and leaves the loader as it was. *)
Lemma user_run (l : Loader) :
  let dotUser := filepath_Join [RootPath l; ".user"] in
  let osUser := match user_Current P with Ok Username => Username | Err _ => EmptyString end in
  user l =
  if Implements l UseDotUser then
    match ioutil_ReadFile P dotUser with
    | Ok fileContents =>
        Ret (strings_TrimSpace (string_of_list_byte fileContents)) l
            [CallReadFile dotUser]
    | Err _ => Ret osUser l [CallReadFile dotUser; CallUserCurrent]
    end
  else Ret osUser l [CallUserCurrent].
Proof.
  unfold user, bind, get, ReadFile, Current, emit, ret. simpl.
  destruct (Implements l UseDotUser); simpl.
  - destruct (ioutil_ReadFile P _); simpl; [reflexivity|].
    destruct (user_Current P); reflexivity.
  - destruct (user_Current P); reflexivity.
Qed.

Lemma user_frame (l l' : Loader) :
  RootPath l' = RootPath l -> loaderFlags l' = loaderFlags l ->
  user l' =
  match user l with
  | Ret u _ log => Ret u l' log
  | Panic p _ log => Panic p l' log
  end.
Proof.
  intros Hroot Hflags. rewrite !user_run. cbv zeta.
  unfold Implements. rewrite Hroot, Hflags.
  destruct (_ >? 0); [|reflexivity].
  destruct (ioutil_ReadFile P _); reflexivity.
Qed.

Lemma user_returns (l : Loader) :
  exists u log, user l = Ret u l log.
Proof.
  rewrite user_run. cbv zeta.
  destruct (Implements l UseDotUser); [|eauto].
  destruct (ioutil_ReadFile P _); eauto.
Qed.

(** The argument branch: it assigns [lookupPaths] and returns, or falls
    through, possibly after assigning the flag remainder. *)
Lemma argumentPaths_run (l : Loader) :
  argumentPaths P l =
  if argumentShortCircuit P l then
    match sliceFrom (os_Args P) (wrap (PreservedArgs l + 1)) l with
    | Ret tail _ log => Ret true (set_lookupPaths tail l) log
    | Panic p _ log => Panic p l log
    end
  else if Implements l UseArgumentPaths && (PreservedArgs l =? UseFlag)
            && (len (flag_Args P) >? 0)
  then Ret false (set_lookupPaths (flag_Args P) l) []
  else Ret false l [].
Proof.
  unfold argumentPaths, argumentShortCircuit, bind, get, modify, ret, sliceFrom, raise.
  cbn [after app].
  destruct (Implements l UseArgumentPaths); cbn [andb negb]; [|reflexivity].
  destruct (PreservedArgs l =? UseFlag); cbn [andb negb].
  - destruct (len (flag_Args P) >? 0); reflexivity.
  - destruct (len (os_Args P) >? wrap (PreservedArgs l + 1)); [|reflexivity].
    destruct ((wrap (PreservedArgs l + 1) <? 0) || _); reflexivity.
Qed.

(** The default sequence: the base path, then the mixin chosen by
    [isTest] and [user]. Whatever [lookupPaths] held is overwritten. *)
Lemma defaultPaths_run (l : Loader) :
  let base := filepath_Join [RootPath l; "config.json"] in
  let mixin name := filepath_Join [RootPath l; "config"; "mixins"; name] in
  defaultPaths l =
  match (if Implements l UseTest then isTest P l else Ret false l []) with
  | Panic p _ log => Panic p (set_lookupPaths [base] l) log
  | Ret true _ log => Ret tt (set_lookupPaths [base; mixin "test.json"] l) log
  | Ret false _ log =>
      match user l with
      | Ret u _ log' =>
          Ret tt (set_lookupPaths
                    (if strlen u >? 0 then [base; mixin (u ++ ".json")%string]
                     else [base]) l) (log ++ log')
      | Panic p _ log' => Panic p (set_lookupPaths [base] l) (log ++ log')
      end
  end.
Proof.
  intros base mixin.
  unfold defaultPaths. unfold bind at 1. unfold get at 1. cbn [after app].
  fold base. unfold bind at 1. unfold modify at 1. cbn [after app].
  unfold bind at 1.
  assert (Htest : (if Implements l UseTest then isTest P else ret false)
                    (set_lookupPaths [base] l) =
                  match (if Implements l UseTest then isTest P l else Ret false l []) with
                  | Ret b _ log => Ret b (set_lookupPaths [base] l) log
                  | Panic p _ log => Panic p (set_lookupPaths [base] l) log
                  end).
  { destruct (Implements l UseTest); [apply isTest_frame | reflexivity]. }
  rewrite Htest.
  destruct (if Implements l UseTest then isTest P l else Ret false l [])
    as [[|] ltest log | p ltest log]; cbn [after]; try reflexivity.
  - unfold modify. cbn. rewrite app_nil_r. reflexivity.
  - unfold bind at 1.
    rewrite (user_frame l (set_lookupPaths [base] l)) by reflexivity.
    destruct (user_returns l) as (u & log' & Hu). rewrite Hu.
    destruct (strlen u >? 0); unfold modify, ret; cbn;
      now rewrite !app_nil_r.
Qed.

Lemma defaultPaths_overwrites (v : list string) (l : Loader) :
  defaultPaths (set_lookupPaths v l) = defaultPaths l.
Proof.
  rewrite !defaultPaths_run. cbv zeta.
  change (Implements (set_lookupPaths v l) UseTest) with (Implements l UseTest).
  change (RootPath (set_lookupPaths v l)) with (RootPath l).
  assert (Htest : (if Implements l UseTest then isTest P (set_lookupPaths v l)
                   else Ret false (set_lookupPaths v l) []) =
                  match (if Implements l UseTest then isTest P l else Ret false l []) with
                  | Ret b _ log => Ret b (set_lookupPaths v l) log
                  | Panic p _ log => Panic p (set_lookupPaths v l) log
                  end).
  { destruct (Implements l UseTest); [apply isTest_frame | reflexivity]. }
  rewrite Htest.
  destruct (if Implements l UseTest then isTest P l else Ret false l [])
    as [[|] ltest log | p ltest log]; try reflexivity.
  rewrite (user_frame l (set_lookupPaths v l)) by reflexivity.
  destruct (user l); reflexivity.
Qed.

(** The outcome of [createLookupPaths] when the [return] of line 148 is
    not reached. *)
Lemma createLookupPaths_default_run (l : Loader) :
  argumentShortCircuit P l = false ->
  createLookupPaths l = defaultPaths l.
Proof.
  intros Hdefault. unfold createLookupPaths, bind.
  rewrite argumentPaths_run, Hdefault.
  destruct (_ && _); cbn [after].
  - rewrite after_nil. apply defaultPaths_overwrites.
  - now rewrite after_nil.
Qed.

(** The outcome of [createLookupPaths] when the [return] of line 148 is
    reached. *)
Lemma createLookupPaths_short_run (l : Loader) :
  argumentShortCircuit P l = true ->
  createLookupPaths l =
  match sliceFrom (os_Args P) (wrap (PreservedArgs l + 1)) l with
  | Ret tail _ log => Ret tt (set_lookupPaths tail l) log
  | Panic p _ log => Panic p l log
  end.
Proof.
  intros Hshort. unfold createLookupPaths, bind.
  rewrite argumentPaths_run, Hshort.
  destruct (sliceFrom _ _ l); cbn; [now rewrite app_nil_r | reflexivity].
Qed.


Lemma sentinel_never_short_circuits (l : Loader) :
  PreservedArgs l = UseFlag -> argumentShortCircuit P l = false.
Proof.
  unfold argumentShortCircuit. intros ->. rewrite Z.eqb_refl.
  now rewrite andb_false_r.
Qed.

(** In sentinel mode the flag remainder never survives: the branch of
    lines 139-143 has no [return], so the default sequence overwrites
    [lookupPaths]. *)
Lemma createLookupPaths_sentinel_falls_through (l : Loader) :
  PreservedArgs l = UseFlag ->
  createLookupPaths l = defaultPaths l.
Proof.
  intros Hflag. apply createLookupPaths_default_run.
  now apply sentinel_never_short_circuits.
Qed.

(** C10. [isTest] is partial: with an invocation path [os.Args[0]] of
    fewer than 5 bytes the slice expression [runfile[len(runfile)-5:]]
    panics instead of yielding [false]; with at least 5 bytes it returns
    [true] exactly when the path ends with [.test]. *)
Theorem isTest_partial_below_five_bytes (l : Loader) (runfile : string)
    (rest : list string) :
  os_Args P = runfile :: rest ->
  isInt (strlen runfile) ->
  (strlen runfile < 5 ->
   isTest P l =
     Panic (SliceBoundsOutOfRange (strlen runfile - 5) (strlen runfile)) l []) /\
  (5 <= strlen runfile ->
   exists b : bool,
     isTest P l = Ret b l [] /\ (b = true <-> HasSuffix runfile ".test")).
Proof.
  intros Hargs Hlen. rewrite isTest_run, Hargs. cbv zeta.
  assert (Hwrap : wrap (strlen runfile - 5) = strlen runfile - 5).
  { apply wrap_small. unfold isInt, minInt, maxInt, strlen in *. lia. }
  rewrite Hwrap. split; intros Hfive.
  - replace (strlen runfile - 5 <? 0) with true by (symmetry; apply Z.ltb_lt; lia).
    reflexivity.
  - replace (strlen runfile - 5 <? 0) with false by (symmetry; apply Z.ltb_ge; lia).
    replace (strlen runfile <? strlen runfile - 5) with false
      by (symmetry; apply Z.ltb_ge; lia).
    cbn [orb]. eexists. split; [reflexivity|].
    apply (strFrom_suffix runfile ".test"). exact Hfive.
Qed.

(** C6. User identity: with [UseDotUser] and a readable [RootPath/.user]
    the identity is the trimmed contents of that file and
    [user.Current] is not called; without the flag, or when the read
    fails, it is the name of the current OS user, and the empty string
    when that lookup fails. *)
Theorem user_resolution (l : Loader) :
  let dotUser := filepath_Join [RootPath l; ".user"] in
  (forall fileContents,
      Implements l UseDotUser = true ->
      ioutil_ReadFile P dotUser = Ok fileContents ->
      user l = Ret (strings_TrimSpace (string_of_list_byte fileContents)) l
                   [CallReadFile dotUser]) /\
  (forall Username,
      Implements l UseDotUser = false \/
        (exists err, ioutil_ReadFile P dotUser = Err err) ->
      user_Current P = Ok Username ->
      exists log, user l = Ret Username l (log ++ [CallUserCurrent])) /\
  (forall err,
      Implements l UseDotUser = false \/
        (exists err', ioutil_ReadFile P dotUser = Err err') ->
      user_Current P = Err err ->
      exists log, user l = Ret EmptyString l (log ++ [CallUserCurrent])).
Proof.
  intros dotUser. pose proof (user_run l) as Hrun. cbv zeta in Hrun.
  fold dotUser in Hrun. rewrite Hrun. clear Hrun. repeat split.
  - intros fileContents -> ->. reflexivity.
  - intros Username Hdot ->. destruct (Implements l UseDotUser).
    + destruct Hdot as [Hdot | [err ->]]; [discriminate|].
      now exists [CallReadFile dotUser].
    + now exists [].
  - intros err Hdot ->. destruct (Implements l UseDotUser).
    + destruct Hdot as [Hdot | [err' ->]]; [discriminate|].
      now exists [CallReadFile dotUser].
    + now exists [].
Qed.




(** [createLookupPaths] assigns [lookupPaths] only. *)
Lemma createLookupPaths_keeps_config (l : Loader) :
  sameConfig l (final (createLookupPaths l)) /\
  loadedPaths (final (createLookupPaths l)) = loadedPaths l /\
  skippedPaths (final (createLookupPaths l)) = skippedPaths l.
Proof.
  unfold sameConfig. destruct (argumentShortCircuit P l) eqn:Hshort.
  - rewrite createLookupPaths_short_run by exact Hshort.
    unfold sliceFrom, raise, ret. destruct (_ || _); cbn; repeat split.
  - rewrite createLookupPaths_default_run by exact Hshort.
    rewrite defaultPaths_run. cbv zeta.
    destruct (user_returns l) as (u & log' & ->).
    destruct (if Implements l UseTest then isTest P l else Ret false l [])
      as [[|] ltest log | p ltest log]; cbn; repeat split.
Qed.



End Resolver.

(** ** The layered loader *)

Section Loading.

Variable P : Process.
Variable filepath_Join : list string -> string.
Variable strings_TrimSpace : string -> string.
Variable T : Type.
Variable json_Unmarshal : list byte -> T -> T * option error.

Local Abbreviation createLookupPaths :=
  (createLookupPaths P filepath_Join strings_TrimSpace).
Local Abbreviation rangeLookupPaths := (rangeLookupPaths P T json_Unmarshal).
Local Abbreviation Load :=
  (Load P filepath_Join strings_TrimSpace T json_Unmarshal).

(** One iteration of the loop. *)
Lemma rangeLookupPaths_step (configPath : string) (rest : list string)
    (config : T) (l : Loader) :
  rangeLookupPaths (configPath :: rest) config l =
  match ioutil_ReadFile P configPath with
  | Err err =>
      if Implements l IgnoreMissingFiles then
        after [CallReadFile configPath]
          (rangeLookupPaths rest config
             (set_skippedPaths (skippedPaths l ++ [configPath]) l))
      else Ret (config, Some err) l [CallReadFile configPath]
  | Ok configData =>
      let d := json_Unmarshal configData config in
      match snd d with
      | Some err =>
          if Implements l IgnoreInvalidFiles then
            after [CallReadFile configPath; CallUnmarshal configData]
              (rangeLookupPaths rest (fst d)
                 (set_skippedPaths (skippedPaths l ++ [configPath]) l))
          else Ret (fst d, Some err) l
                   [CallReadFile configPath; CallUnmarshal configData]
      | None =>
          after [CallReadFile configPath; CallUnmarshal configData]
            (rangeLookupPaths rest (fst d)
               (set_loadedPaths (loadedPaths l ++ [configPath]) l))
      end
  end.
Proof.
  simpl rangeLookupPaths.
  unfold bind at 1. unfold get at 1. cbn [after app].
  unfold bind at 1. unfold ReadFile, bind at 1, emit, ret. cbn [after app].
  destruct (ioutil_ReadFile P configPath) as [configData | err].
  - unfold bind at 1. unfold Unmarshal, bind at 1, emit, ret. cbn [after app].
    cbv zeta. destruct (snd (json_Unmarshal configData config)) as [err|].
    + destruct (Implements l IgnoreInvalidFiles); cbn [negb].
      * unfold bind, modify. cbn [after app]. now merge_logs.
      * reflexivity.
    + unfold bind, modify. cbn [after app]. now merge_logs.
  - destruct (Implements l IgnoreMissingFiles); cbn [negb].
    + unfold bind, modify. cbn [after app]. now merge_logs.
    + reflexivity.
Qed.

(** The loop never panics, and from any state it appends to the two
    lists an order-preserving split of the candidates it went through. *)
Lemma rangeLookupPaths_split (paths : list string) :
  forall (config : T) (l : Loader),
  exists config' err log done todo ld sk,
    rangeLookupPaths paths config l =
      Ret (config', err)
          (set_skippedPaths (skippedPaths l ++ sk)
             (set_loadedPaths (loadedPaths l ++ ld) l)) log /\
    paths = done ++ todo /\
    Merge ld sk done /\
    (err = None -> todo = []).
Proof.
  induction paths as [|configPath rest IH]; intros config l.
  - exists config, None, [], [], [], [], []. repeat split.
    + destruct l; cbn. now rewrite !app_nil_r.
    + constructor.
  - rewrite rangeLookupPaths_step.
    destruct (ioutil_ReadFile P configPath) as [configData | err].
    + cbv zeta. destruct (json_Unmarshal configData config) as [config1 [err|]];
        cbn [fst snd].
      * destruct (Implements l IgnoreInvalidFiles).
        -- destruct (IH config1 (set_skippedPaths (skippedPaths l ++ [configPath]) l))
             as (config' & err' & log & done & todo & ld & sk & Hrun & Hsplit & Hmerge & Hend).
           rewrite Hrun.
           exists config', err', ([CallReadFile configPath; CallUnmarshal configData] ++ log),
             (configPath :: done), todo, ld, (configPath :: sk).
           repeat split; [| now rewrite Hsplit | now constructor | exact Hend].
           destruct l; cbn. now rewrite <- app_assoc.
        -- exists config1, (Some err), [CallReadFile configPath; CallUnmarshal configData],
             [], (configPath :: rest), [], [].
           repeat split; [| constructor | discriminate].
           destruct l; cbn. now rewrite !app_nil_r.
      * destruct (IH config1 (set_loadedPaths (loadedPaths l ++ [configPath]) l))
          as (config' & err' & log & done & todo & ld & sk & Hrun & Hsplit & Hmerge & Hend).
        rewrite Hrun.
        exists config', err', ([CallReadFile configPath; CallUnmarshal configData] ++ log),
          (configPath :: done), todo, (configPath :: ld), sk.
        repeat split; [| now rewrite Hsplit | now constructor | exact Hend].
        destruct l; cbn. now rewrite <- app_assoc.
    + destruct (Implements l IgnoreMissingFiles).
      * destruct (IH config (set_skippedPaths (skippedPaths l ++ [configPath]) l))
          as (config' & err' & log & done & todo & ld & sk & Hrun & Hsplit & Hmerge & Hend).
        rewrite Hrun.
        exists config', err', ([CallReadFile configPath] ++ log),
          (configPath :: done), todo, ld, (configPath :: sk).
        repeat split; [| now rewrite Hsplit | now constructor | exact Hend].
        destruct l; cbn. now rewrite <- app_assoc.
      * exists config, (Some err), [CallReadFile configPath],
          [], (configPath :: rest), [], [].
        repeat split; [| constructor | discriminate].
        destruct l; cbn. now rewrite !app_nil_r.
Qed.

(** Scanning [pre ++ post] is scanning [pre] and, unless that returned an
    error, going on with [post]. *)
Lemma rangeLookupPaths_app (pre post : list string) :
  forall (config : T) (l : Loader),
  rangeLookupPaths (pre ++ post) config l =
  match rangeLookupPaths pre config l with
  | Ret (config1, None) l1 log1 =>
      after log1 (rangeLookupPaths post config1 l1)
  | r => r
  end.
Proof.
  induction pre as [|configPath pre IH]; intros config l.
  - cbn [app]. change (rangeLookupPaths [] config l) with (Ret (config, @None error) l []).
    cbv iota. now rewrite after_nil.
  - cbn [app]. rewrite !rangeLookupPaths_step.
    assert (Hgo : forall log config1 l1,
               after log (rangeLookupPaths (pre ++ post) config1 l1) =
               match after log (rangeLookupPaths pre config1 l1) with
               | Ret (config2, None) l2 log2 =>
                   after log2 (rangeLookupPaths post config2 l2)
               | r => r
               end).
    { intros log config1 l1. rewrite IH.
      destruct (rangeLookupPaths pre config1 l1) as [[config2 [err|]] l2 log2 | p l2 log2];
        cbn [after]; try reflexivity.
      now rewrite after_after. }
    destruct (ioutil_ReadFile P configPath) as [configData | err].
    + cbv zeta. destruct (snd (json_Unmarshal configData config)) as [err|].
      * destruct (Implements l IgnoreInvalidFiles); [apply Hgo | reflexivity].
      * apply Hgo.
    + destruct (Implements l IgnoreMissingFiles); [apply Hgo | reflexivity].
Qed.

(** [Load] is [createLookupPaths], the reset of the two lists and the
    loop over the candidates just resolved. *)
Lemma Load_run (config : T) (l : Loader) :
  Load config l =
  match createLookupPaths l with
  | Ret _ l0 log0 =>
      after log0
        (rangeLookupPaths (lookupPaths l0) config
           (set_skippedPaths [] (set_loadedPaths [] l0)))
  | Panic p l0 log0 => Panic p l0 log0
  end.
Proof.
  unfold Load. unfold bind at 1.
  destruct (createLookupPaths l) as [[] l0 log0 | p l0 log0]; [|reflexivity].
  unfold bind, modify, get. cbn [after app]. merge_logs.
  now rewrite !app_nil_r.
Qed.

(** C2, as the code has it. After every [Load] call that returns, the
    candidates resolved for the call are [done ++ todo], where
    [loadedPaths] and [skippedPaths] split [done] occurrence by
    occurrence and in order, and [todo] is empty when no error is
    returned; so every listed path is a candidate, every candidate is
    listed when there is no error, and the two lists share no path when
    no candidate is repeated. *)
Theorem Load_lists_split_candidates (config config' : T) (l l' : Loader)
    (err : option error) (log : list event) :
  Load config l = Ret (config', err) l' log ->
  lookupPaths l' = lookupPaths (final (createLookupPaths l)) /\
  exists done todo,
    lookupPaths l' = done ++ todo /\
    Merge (loadedPaths l') (skippedPaths l') done /\
    (err = None -> todo = []) /\
    (forall p, In p (loadedPaths l') \/ In p (skippedPaths l') ->
               In p (lookupPaths l')) /\
    (err = None ->
     forall p, In p (lookupPaths l') ->
               In p (loadedPaths l') \/ In p (skippedPaths l')) /\
    (NoDup (lookupPaths l') -> disjoint (loadedPaths l') (skippedPaths l')).
Proof.
  rewrite Load_run. destruct (createLookupPaths l) as [[] l0 log0 | p l0 log0];
    [|discriminate].
  destruct (rangeLookupPaths_split (lookupPaths l0) config
              (set_skippedPaths [] (set_loadedPaths [] l0)))
    as (c1 & err1 & log1 & done & todo & ld & sk & Hrun & Hsplit & Hmerge & Hend).
  rewrite Hrun. cbn [after final]. intros Heq.
  injection Heq as <- <- <- <-.
  cbn [lookupPaths loadedPaths skippedPaths set_skippedPaths set_loadedPaths app].
  split; [reflexivity|]. exists done, todo.
  split; [exact Hsplit|]. split; [exact Hmerge|]. split; [exact Hend|].
  split; [|split].
  - intros p Hin. rewrite Hsplit. apply in_or_app. left.
    now apply (Merge_In _ _ _ Hmerge).
  - intros Hnone p Hin. rewrite Hsplit, (Hend Hnone), app_nil_r in Hin.
    now apply (Merge_In _ _ _ Hmerge).
  - intros Hnodup. rewrite Hsplit in Hnodup.
    apply (Merge_NoDup_disjoint _ _ _ Hmerge).
    now apply NoDup_app_remove_r in Hnodup.
Qed.

(** C3. When the read of a candidate [configPath] fails: with
    [IgnoreMissingFiles] the path is appended to [skippedPaths] and the
    loop goes on with the candidates after it; without it [Load] returns
    that error at once, nothing is read or decoded for the candidates
    after it, and the two lists hold exactly the candidates before it. *)
Theorem Load_read_failure (config config1 : T) (l l0 l1 : Loader)
    (pre post : list string) (configPath : string) (err : error)
    (log0 log1 : list event) :
  createLookupPaths l = Ret tt l0 log0 ->
  lookupPaths l0 = pre ++ configPath :: post ->
  rangeLookupPaths pre config (set_skippedPaths [] (set_loadedPaths [] l0)) =
    Ret (config1, None) l1 log1 ->
  ioutil_ReadFile P configPath = Err err ->
  (Implements l IgnoreMissingFiles = true ->
   Load config l =
     after (log0 ++ log1 ++ [CallReadFile configPath])
       (rangeLookupPaths post config1
          (set_skippedPaths (skippedPaths l1 ++ [configPath]) l1))) /\
  (Implements l IgnoreMissingFiles = false ->
   Load config l =
     Ret (config1, Some err) l1 (log0 ++ log1 ++ [CallReadFile configPath]) /\
   Merge (loadedPaths l1) (skippedPaths l1) pre).
Proof.
  intros Hpaths Hcands Hpre Hread.
  assert (Hflags : loaderFlags l1 = loaderFlags l).
  { destruct (rangeLookupPaths_split pre config
                (set_skippedPaths [] (set_loadedPaths [] l0)))
      as (c & e & lg & done & todo & ld & sk & Hrun & _).
    rewrite Hrun in Hpre. injection Hpre as _ _ <- _. cbn.
    destruct (createLookupPaths_keeps_config P filepath_Join strings_TrimSpace l)
      as ((_ & _ & Hfl) & _).
    rewrite Hpaths in Hfl. now symmetry. }
  assert (Himpl : Implements l1 IgnoreMissingFiles = Implements l IgnoreMissingFiles).
  { unfold Implements. now rewrite Hflags. }
  rewrite Load_run, Hpaths, Hcands, rangeLookupPaths_app, Hpre.
  rewrite rangeLookupPaths_step, Hread, Himpl. split; intros Hignore; rewrite Hignore.
  - merge_logs. now rewrite <- app_assoc.
  - split; [merge_logs; cbn [after]; now rewrite <- app_assoc|].
    destruct (rangeLookupPaths_split pre config
                (set_skippedPaths [] (set_loadedPaths [] l0)))
      as (c & e & lg & done & todo & ld & sk & Hrun & Hsplit & Hmerge & Hend).
    rewrite Hrun in Hpre. injection Hpre as _ -> <- _. cbn.
    rewrite (Hend eq_refl), app_nil_r in Hsplit. now subst done.
Qed.



End Loading.

(** ** The loader at work on a concrete process *)

(** Closed side conditions: evaluate, then compare. *)
Ltac by_computation :=
  vm_compute; repeat split; (reflexivity || discriminate).

Section Runs.

Import Fixture.

Local Abbreviation isTest' := isTest.
Local Abbreviation user' := (fun P => user P join trimSpace).
Local Abbreviation resolve := (fun P => createLookupPaths P join trimSpace).
Local Abbreviation load := (fun P => Load P join trimSpace Config unmarshal).
Local Abbreviation scan := (fun P => rangeLookupPaths P Config unmarshal).

(** C1, on the code. A loader made by [NewLoader] with [UseArgumentPaths]
    has the default [PreservedArgs = UseFlag]; with the flag remainder
    [/etc/app/override.json], [createLookupPaths] does not keep the
    remainder: it resolves the base path and the user mixin, as if no
    argument had been given. *)
Theorem createLookupPaths_flag_remainder_discarded :
  let P := process ["/srv/app/app"; "/etc/app/override.json"]
                   ["/etc/app/override.json"] in
  exists l,
    NewLoader P (Z.lor UseArgumentPaths UseExecutablePath) = Ok l /\
    Implements l UseArgumentPaths = true /\
    PreservedArgs l = UseFlag /\
    flag_Args P = ["/etc/app/override.json"] /\
    resolve P l =
      Ret tt (set_lookupPaths ["/srv/app/config.json";
                               "/srv/app/config/mixins/bob.json"] l)
          [CallUserCurrent] /\
    lookupPaths (final (resolve P l)) <> flag_Args P.
Proof.
  cbv zeta. eexists. split; [vm_compute; reflexivity|].
  repeat split. discriminate.
Qed.

Lemma isTest_partial_below_five_bytes_witness :
  (forall l, isTest' (process ["app"] []) l =
             Panic (SliceBoundsOutOfRange (-2) 3) l []) /\
  (forall l, exists b : bool,
      isTest' (process ["/srv/app/app.test"] []) l = Ret b l [] /\
      (b = true <-> HasSuffix "/srv/app/app.test" ".test")).
Proof.
  split; intros l.
  - apply (isTest_partial_below_five_bytes (process ["app"] []) l "app" []);
      by_computation.
  - apply (isTest_partial_below_five_bytes (process ["/srv/app/app.test"] []) l
             "/srv/app/app.test" []);
      by_computation.
Defined.

Lemma user_resolution_witness :
  (forall l, l = loader UseDotUser UseFlag ->
     user' (process [] []) l = Ret "alice" l [CallReadFile "/srv/app/.user"]) /\
  (exists log, user' (process [] []) (loader 0 UseFlag) =
               Ret "bob" (loader 0 UseFlag) (log ++ [CallUserCurrent])) /\
  (exists log, user' (orphan [] []) (loader 0 UseFlag) =
               Ret EmptyString (loader 0 UseFlag) (log ++ [CallUserCurrent])).
Proof.
  split; [|split].
  - intros l ->.
    apply (proj1 (user_resolution (process [] []) join trimSpace
                    (loader UseDotUser UseFlag))
             (bytes (String.append "alice" (String "010" EmptyString)))); by_computation.
  - apply (proj1 (proj2 (user_resolution (process [] []) join trimSpace
                           (loader 0 UseFlag))) "bob");
      [left|]; by_computation.
  - apply (proj2 (proj2 (user_resolution (orphan [] []) join trimSpace
                           (loader 0 UseFlag)))
             "user: Current requires cgo or $USER set in environment");
      [left|]; by_computation.
Defined.




(** C2, a counterexample to the claim as stated. The candidate
    [/srv/app/config.json] is given twice on the command line and the
    target accepts one assignment only: with [IgnoreInvalidFiles] the
    first occurrence is loaded and the second one skipped, so the same
    path is in both lists of a call that returns no error. *)
Lemma Load_lists_share_repeated_candidate :
  let P := process ["/srv/app/app"; "/srv/app/config.json"; "/srv/app/config.json"] [] in
  let l := loader (Z.lor UseArgumentPaths IgnoreInvalidFiles) 0 in
  exists config' l' log,
    Load P join trimSpace (option (list byte)) unmarshalOnce None l =
      Ret (config', None) l' log /\
    lookupPaths l' = ["/srv/app/config.json"; "/srv/app/config.json"] /\
    loadedPaths l' = ["/srv/app/config.json"] /\
    skippedPaths l' = ["/srv/app/config.json"] /\
    ~ disjoint (loadedPaths l') (skippedPaths l').
Proof.
  cbv zeta. eexists _, _, _. split; [vm_compute; reflexivity|].
  repeat split. intros Hdisjoint.
  apply (Hdisjoint "/srv/app/config.json"); now left.
Qed.

Lemma Load_lists_split_candidates_witness :
  let P := process ["/srv/app/app"] [] in
  let l := loader (Z.lor UseDotUser IgnoreMissingFiles) UseFlag in
  exists config' err l' log,
    load P zero l = Ret (config', err) l' log /\
    loadedPaths l' = ["/srv/app/config.json"; "/srv/app/config/mixins/alice.json"] /\
    skippedPaths l' = [] /\
    lookupPaths l' = lookupPaths (final (resolve P l)) /\
    exists done todo,
      lookupPaths l' = done ++ todo /\
      Merge (loadedPaths l') (skippedPaths l') done /\
      (err = None -> todo = []) /\
      (forall p, In p (loadedPaths l') \/ In p (skippedPaths l') ->
                 In p (lookupPaths l')) /\
      (err = None ->
       forall p, In p (lookupPaths l') ->
                 In p (loadedPaths l') \/ In p (skippedPaths l')) /\
      (NoDup (lookupPaths l') -> disjoint (loadedPaths l') (skippedPaths l')).
Proof.
  cbv zeta. eexists _, _, _, _. split; [vm_compute; reflexivity|].
  split; [reflexivity|]. split; [reflexivity|].
  eapply (Load_lists_split_candidates (process ["/srv/app/app"] [])
           join trimSpace Config unmarshal zero _
           (loader (Z.lor UseDotUser IgnoreMissingFiles) UseFlag)).
  vm_compute. reflexivity.
Defined.

Lemma Load_read_failure_witness :
  let args := ["/srv/app/app"; "/srv/app/config.json"; "/etc/app/absent.json";
               "/srv/app/config/mixins/alice.json"] in
  let tolerant := loader (Z.lor UseArgumentPaths IgnoreMissingFiles) 0 in
  let strict := loader UseArgumentPaths 0 in
  (exists config1 l1 log,
      load (process args []) zero tolerant =
        after log (scan (process args []) ["/srv/app/config/mixins/alice.json"] config1
                     (set_skippedPaths (skippedPaths l1 ++ ["/etc/app/absent.json"]) l1))) /\
  (exists config1 l1 log,
      load (process args []) zero strict =
        Ret (config1, Some "open /etc/app/absent.json: no such file or directory")
            l1 log /\
      Merge (loadedPaths l1) (skippedPaths l1) ["/srv/app/config.json"]).
Proof.
  cbv zeta. split.
  - eexists _, _, _.
    apply (proj1 (Load_read_failure
                    (process ["/srv/app/app"; "/srv/app/config.json";
                              "/etc/app/absent.json";
                              "/srv/app/config/mixins/alice.json"] [])
                    join trimSpace Config unmarshal zero _
                    (loader (Z.lor UseArgumentPaths IgnoreMissingFiles) 0) _ _
                    ["/srv/app/config.json"] ["/srv/app/config/mixins/alice.json"]
                    "/etc/app/absent.json"
                    "open /etc/app/absent.json: no such file or directory" _ _
                    eq_refl eq_refl eq_refl eq_refl)).
    reflexivity.
  - eexists _, _, _.
    apply (proj2 (Load_read_failure
                    (process ["/srv/app/app"; "/srv/app/config.json";
                              "/etc/app/absent.json";
                              "/srv/app/config/mixins/alice.json"] [])
                    join trimSpace Config unmarshal zero _
                    (loader UseArgumentPaths 0) _ _
                    ["/srv/app/config.json"] ["/srv/app/config/mixins/alice.json"]
                    "/etc/app/absent.json"
                    "open /etc/app/absent.json: no such file or directory" _ _
                    eq_refl eq_refl eq_refl eq_refl)).
    reflexivity.
Defined.




End Runs.

(** ** Behaviour flags and construction *)

Section Flags.

Variable P : Process.

Lemma land_pow2 (f i : Z) :
  0 <= i -> Z.land f (2 ^ i) = if Z.testbit f i then 2 ^ i else 0.
Proof.
  intros Hi. apply Z.bits_inj'. intros n Hn.
  rewrite Z.land_spec, Z.pow2_bits_eqb by exact Hi.
  destruct (Z.eqb_spec i n) as [<- | Hne].
  - rewrite andb_true_r. destruct (Z.testbit f i) eqn:Hbit.
    + rewrite Z.pow2_bits_eqb by exact Hi. now rewrite Z.eqb_refl.
    + now rewrite Z.testbit_0_l.
  - rewrite andb_false_r. destruct (Z.testbit f i).
    + rewrite Z.pow2_bits_eqb by exact Hi. symmetry. now apply Z.eqb_neq.
    + now rewrite Z.testbit_0_l.
Qed.

Lemma Implements_bit (l : Loader) (i : Z) :
  0 <= i -> Implements l (Z.shiftl 1 i) = Z.testbit (loaderFlags l) i.
Proof.
  intros Hi. unfold Implements. rewrite Z.shiftl_1_l, land_pow2 by exact Hi.
  destruct (Z.testbit (loaderFlags l) i).
  - apply Z.gtb_lt. apply Z.pow_pos_nonneg; lia.
  - reflexivity.
Qed.

(** X1. Each of the six behaviours is one bit of [loaderFlags]: [Implements]
    answers for that bit alone, whatever the other bits are (and also for
    a negative [loaderFlags]). *)
Theorem Implements_tests_one_bit (l : Loader) :
  Implements l UseTest = Z.testbit (loaderFlags l) 0 /\
  Implements l UseDotUser = Z.testbit (loaderFlags l) 1 /\
  Implements l UseArgumentPaths = Z.testbit (loaderFlags l) 2 /\
  Implements l UseExecutablePath = Z.testbit (loaderFlags l) 3 /\
  Implements l IgnoreMissingFiles = Z.testbit (loaderFlags l) 4 /\
  Implements l IgnoreInvalidFiles = Z.testbit (loaderFlags l) 5.
Proof.
  unfold UseTest, UseDotUser, UseArgumentPaths, UseExecutablePath,
    IgnoreMissingFiles, IgnoreInvalidFiles.
  repeat split; apply Implements_bit; lia.
Qed.

(** X2. Asked about a mask that combines several behaviours, [Implements]
    answers whether at least one of them is set, not whether all are. *)
Theorem Implements_any_of_mask (l : Loader) (a b : Z) :
  0 <= a -> 0 <= b ->
  Implements l (Z.lor a b) = Implements l a || Implements l b.
Proof.
  intros Ha Hb. unfold Implements. rewrite Z.land_lor_distr_r.
  assert (Hna : 0 <= Z.land (loaderFlags l) a) by (apply Z.land_nonneg; now right).
  assert (Hnb : 0 <= Z.land (loaderFlags l) b) by (apply Z.land_nonneg; now right).
  assert (Hor : 0 <= Z.lor (Z.land (loaderFlags l) a) (Z.land (loaderFlags l) b))
    by (apply Z.lor_nonneg; now split).
  pose proof (Z.lor_eq_0_iff (Z.land (loaderFlags l) a) (Z.land (loaderFlags l) b))
    as Hzero.
  destruct (Z.gtb_spec (Z.lor (Z.land (loaderFlags l) a) (Z.land (loaderFlags l) b)) 0),
    (Z.gtb_spec (Z.land (loaderFlags l) a) 0),
    (Z.gtb_spec (Z.land (loaderFlags l) b) 0); cbn; try reflexivity; lia.
Qed.

(** X3. [NewLoader] fails only when [UseExecutablePath] is requested and the
    lookup of the executable's folder fails, and then with that error. A
    loader it returns has [PreservedArgs = UseFlag], the flags it was
    given, no path in any list, and as [RootPath] the executable's folder
    when [UseExecutablePath] is requested and the current directory
    otherwise. *)
Theorem NewLoader_outcome (flags : Z) :
  let fresh RootPath :=
    {| RootPath := RootPath; PreservedArgs := UseFlag; lookupPaths := [];
       loadedPaths := []; skippedPaths := []; loaderFlags := flags |} in
  (Z.testbit flags 3 = false -> NewLoader P flags = Ok (fresh ".")) /\
  (forall executableFolder,
      Z.testbit flags 3 = true ->
      osext_ExecutableFolder P = Ok executableFolder ->
      NewLoader P flags = Ok (fresh executableFolder)) /\
  (forall err,
      Z.testbit flags 3 = true ->
      osext_ExecutableFolder P = Err err ->
      NewLoader P flags = Err err).
Proof.
  intros fresh. unfold NewLoader.
  replace (Implements _ UseExecutablePath) with (Z.testbit flags 3)
    by (symmetry; apply (Implements_bit (fresh EmptyString) 3); lia).
  repeat split.
  - intros ->. reflexivity.
  - intros executableFolder -> ->. reflexivity.
  - intros err -> ->. reflexivity.
Qed.

End Flags.

(** ** Path resolution at the edges *)

Section ResolverEdges.

Variable P : Process.
Variable filepath_Join : list string -> string.
Variable strings_TrimSpace : string -> string.

Local Abbreviation defaultPaths :=
  (defaultPaths P filepath_Join strings_TrimSpace).
Local Abbreviation resolveIn :=
  (fun P' => createLookupPaths P' filepath_Join strings_TrimSpace).
Local Abbreviation createLookupPaths :=
  (createLookupPaths P filepath_Join strings_TrimSpace).

Lemma len_nonneg {A : Type} (s : list A) : 0 <= len s.
Proof. unfold len. lia. Qed.

(** X4. A count below [-1], or the largest [int], makes the split index
    [PreservedArgs + 1] negative (by wrap-around for the largest [int]):
    the length test of line 146 passes and [os.Args[splitSize:]] panics.
    Nothing has been assigned or called at that point. *)
Theorem createLookupPaths_bad_count_panics (l : Loader) :
  Implements l UseArgumentPaths = true ->
  isInt (PreservedArgs l) ->
  PreservedArgs l < -1 \/ PreservedArgs l = maxInt ->
  wrap (PreservedArgs l + 1) < 0 /\
  createLookupPaths l =
    Panic (SliceBoundsOutOfRange (wrap (PreservedArgs l + 1)) (len (os_Args P)))
          l [].
Proof.
  intros Hargs Hint Hbad.
  assert (Hneg : wrap (PreservedArgs l + 1) < 0).
  { destruct Hbad as [Hlow | ->].
    - rewrite wrap_small; [lia|]. unfold isInt, minInt, maxInt in *. lia.
    - vm_compute. reflexivity. }
  assert (Hcount : (PreservedArgs l =? UseFlag) = false).
  { apply Z.eqb_neq. unfold UseFlag. destruct Hbad as [Hlow | ->]; [lia|].
    vm_compute. discriminate. }
  pose proof (len_nonneg (os_Args P)) as Hlen.
  split; [exact Hneg|].
  rewrite createLookupPaths_short_run.
  - unfold sliceFrom, raise.
    replace (wrap (PreservedArgs l + 1) <? 0) with true
      by (symmetry; apply Z.ltb_lt; exact Hneg).
    reflexivity.
  - unfold argumentShortCircuit. rewrite Hargs, Hcount.
    replace (len (os_Args P) >? wrap (PreservedArgs l + 1)) with true
      by (symmetry; apply Z.gtb_lt; lia).
    reflexivity.
Qed.

(** X5. With [UseArgumentPaths] and a count [k >= 0], when [os.Args] has at
    most [k + 1] elements no argument is taken as a path: the outcome is
    the default sequence of lines 153-164. *)
Theorem createLookupPaths_few_arguments (l : Loader) :
  Implements l UseArgumentPaths = true ->
  0 <= PreservedArgs l < maxInt ->
  len (os_Args P) <= PreservedArgs l + 1 ->
  createLookupPaths l = defaultPaths l.
Proof.
  intros Hargs Hk Hlen. apply createLookupPaths_default_run.
  unfold argumentShortCircuit.
  rewrite wrap_small by (unfold isInt, minInt, maxInt in *; lia).
  replace (len (os_Args P) >? PreservedArgs l + 1) with false
    by (symmetry; rewrite Z.gtb_ltb; apply Z.ltb_ge; lia).
  now rewrite andb_false_r.
Qed.

(** X6. The flag remainder has no influence on the outcome of
    [createLookupPaths]: in count mode it is not read, and in sentinel
    mode the assignment of line 142 is overwritten at line 153. *)
Theorem createLookupPaths_ignores_flag_remainder (flagArgs : list string)
    (l : Loader) :
  resolveIn (withFlagArgs flagArgs P) l = createLookupPaths l.
Proof.
  destruct (argumentShortCircuit P l) eqn:Hshort.
  - rewrite !createLookupPaths_short_run by exact Hshort. reflexivity.
  - rewrite !createLookupPaths_default_run by exact Hshort. reflexivity.
Qed.

End ResolverEdges.

(** ** Outcomes of [Load] *)

Section LoaderOutcome.

Variable P : Process.
Variable filepath_Join : list string -> string.
Variable strings_TrimSpace : string -> string.
Variable T : Type.
Variable json_Unmarshal : list byte -> T -> T * option error.

Local Abbreviation createLookupPaths :=
  (createLookupPaths P filepath_Join strings_TrimSpace).
Local Abbreviation rangeLookupPaths := (rangeLookupPaths P T json_Unmarshal).
Local Abbreviation Load :=
  (Load P filepath_Join strings_TrimSpace T json_Unmarshal).
Local Abbreviation run_split := (rangeLookupPaths_split P T json_Unmarshal).
Local Abbreviation keeps_config :=
  (createLookupPaths_keeps_config P filepath_Join strings_TrimSpace).

Lemma final_after {A : Type} (log1 : list event) (r : Res A) :
  final (after log1 r) = final r.
Proof. now destruct r. Qed.

Lemma after_Ret_inv {A : Type} (log1 log : list event) (r : Res A) (a : A)
    (l : Loader) :
  after log1 r = Ret a l log ->
  exists log2, r = Ret a l log2 /\ log = log1 ++ log2.
Proof.
  destruct r as [a' l' log' | p l' log']; cbn; [|discriminate].
  intros Heq. injection Heq as -> -> <-. now exists log'.
Qed.

(** Case analysis and induction along the loop: a property of the loop's
    outcome holds if it holds at the end of the candidates, at each of the
    two [return err], and is carried over each of the three ways to go on
    with the next candidate. *)
Lemma rangeLookupPaths_cases
    (Q : list string -> T -> Loader -> Res (T * option error) -> Prop) :
  (forall config l, Q [] config l (Ret (config, None) l [])) ->
  (forall configPath rest config l err,
      ioutil_ReadFile P configPath = Err err ->
      Implements l IgnoreMissingFiles = false ->
      Q (configPath :: rest) config l
        (Ret (config, Some err) l [CallReadFile configPath])) ->
  (forall configPath rest config l err,
      ioutil_ReadFile P configPath = Err err ->
      Implements l IgnoreMissingFiles = true ->
      let l1 := set_skippedPaths (skippedPaths l ++ [configPath]) l in
      Q rest config l1 (rangeLookupPaths rest config l1) ->
      Q (configPath :: rest) config l
        (after [CallReadFile configPath] (rangeLookupPaths rest config l1))) ->
  (forall configPath rest config l configData config1 err,
      ioutil_ReadFile P configPath = Ok configData ->
      json_Unmarshal configData config = (config1, Some err) ->
      Implements l IgnoreInvalidFiles = false ->
      Q (configPath :: rest) config l
        (Ret (config1, Some err) l
             [CallReadFile configPath; CallUnmarshal configData])) ->
  (forall configPath rest config l configData config1 err,
      ioutil_ReadFile P configPath = Ok configData ->
      json_Unmarshal configData config = (config1, Some err) ->
      Implements l IgnoreInvalidFiles = true ->
      let l1 := set_skippedPaths (skippedPaths l ++ [configPath]) l in
      Q rest config1 l1 (rangeLookupPaths rest config1 l1) ->
      Q (configPath :: rest) config l
        (after [CallReadFile configPath; CallUnmarshal configData]
           (rangeLookupPaths rest config1 l1))) ->
  (forall configPath rest config l configData config1,
      ioutil_ReadFile P configPath = Ok configData ->
      json_Unmarshal configData config = (config1, None) ->
      let l1 := set_loadedPaths (loadedPaths l ++ [configPath]) l in
      Q rest config1 l1 (rangeLookupPaths rest config1 l1) ->
      Q (configPath :: rest) config l
        (after [CallReadFile configPath; CallUnmarshal configData]
           (rangeLookupPaths rest config1 l1))) ->
  forall paths config l, Q paths config l (rangeLookupPaths paths config l).
Proof.
  intros Hend Hmissing Hskip1 Hinvalid Hskip2 Hload.
  induction paths as [|configPath rest IH]; intros config l.
  - apply Hend.
  - rewrite rangeLookupPaths_step.
    destruct (ioutil_ReadFile P configPath) as [configData | err] eqn:Hread.
    + cbv zeta.
      destruct (json_Unmarshal configData config) as [config1 [err|]] eqn:Hdec;
        cbn [fst snd].
      * destruct (Implements l IgnoreInvalidFiles) eqn:Hflag.
        -- eapply Hskip2; eauto.
        -- eapply Hinvalid; eauto.
      * eapply Hload; eauto.
    + destruct (Implements l IgnoreMissingFiles) eqn:Hflag.
      * eapply Hskip1; eauto.
      * eapply Hmissing; eauto.
Qed.

(** An error returned by the loop is the read error or the decode error of
    one of the paths, and the flag that tolerates it is off. *)
Lemma rangeLookupPaths_error (paths : list string) (config : T) (l : Loader) :
  forall config' err l' log,
    rangeLookupPaths paths config l = Ret (config', Some err) l' log ->
    exists failing,
      In failing paths /\
      ((ioutil_ReadFile P failing = Err err /\
        Implements l IgnoreMissingFiles = false) \/
       (exists data config0,
           ioutil_ReadFile P failing = Ok data /\
           json_Unmarshal data config0 = (config', Some err) /\
           Implements l IgnoreInvalidFiles = false)).
Proof.
  pattern paths, config, l, (rangeLookupPaths paths config l).
  apply rangeLookupPaths_cases; clear paths config l.
  - intros config l config' err l' log Heq. discriminate.
  - intros p rest config l e Hread Hflag config' err l' log Heq.
    injection Heq as <- <- <- <-. exists p. split; [now left | now left].
  - intros p rest config l e Hread Hflag l1 IH config' err l' log Heq.
    apply after_Ret_inv in Heq as (log2 & Heq & _).
    destruct (IH _ _ _ _ Heq) as (failing & Hin & Hcase).
    exists failing. split; [now right | exact Hcase].
  - intros p rest config l data config1 e Hread Hdec Hflag config' err l' log Heq.
    injection Heq as <- <- <- <-. exists p. split; [now left|].
    right. now exists data, config.
  - intros p rest config l data config1 e Hread Hdec Hflag l1 IH config' err l' log Heq.
    apply after_Ret_inv in Heq as (log2 & Heq & _).
    destruct (IH _ _ _ _ Heq) as (failing & Hin & Hcase).
    exists failing. split; [now right | exact Hcase].
  - intros p rest config l data config1 Hread Hdec l1 IH config' err l' log Heq.
    apply after_Ret_inv in Heq as (log2 & Heq & _).
    destruct (IH _ _ _ _ Heq) as (failing & Hin & Hcase).
    exists failing. split; [now right | exact Hcase].
Qed.

(** Where the entries appended by the loop come from: a loaded path was
    read, a skipped path failed under the flag that tolerates it. *)
Lemma rangeLookupPaths_lists (paths : list string) (config : T) (l : Loader) :
  forall p,
    (In p (loadedPaths (final (rangeLookupPaths paths config l))) ->
     In p (loadedPaths l) \/
     exists data, ioutil_ReadFile P p = Ok data) /\
    (In p (skippedPaths (final (rangeLookupPaths paths config l))) ->
     In p (skippedPaths l) \/
     ((exists err, ioutil_ReadFile P p = Err err) /\
      Implements l IgnoreMissingFiles = true) \/
     ((exists data, ioutil_ReadFile P p = Ok data) /\
      Implements l IgnoreInvalidFiles = true)).
Proof.
  pattern paths, config, l, (rangeLookupPaths paths config l).
  apply rangeLookupPaths_cases; clear paths config l.
  - intros config l p. cbn. tauto.
  - intros p0 rest config l e Hread Hflag p. cbn. tauto.
  - intros p0 rest config l e Hread Hflag l1 IH p. rewrite final_after.
    destruct (IH p) as [IHl IHs]. subst l1. cbn in IHl, IHs. split.
    + exact IHl.
    + intros Hin. destruct (IHs Hin) as [Hold | Hnew]; [|now right].
      apply in_app_or in Hold as [Hold | [<- | []]]; [now left|].
      right. left. split; [now exists e | exact Hflag].
  - intros p0 rest config l data config1 e Hread Hdec Hflag p. cbn. tauto.
  - intros p0 rest config l data config1 e Hread Hdec Hflag l1 IH p.
    rewrite final_after. destruct (IH p) as [IHl IHs]. subst l1.
    cbn in IHl, IHs. split.
    + exact IHl.
    + intros Hin. destruct (IHs Hin) as [Hold | Hnew]; [|now right].
      apply in_app_or in Hold as [Hold | [<- | []]]; [now left|].
      right. right. split; [now exists data | exact Hflag].
  - intros p0 rest config l data config1 Hread Hdec l1 IH p.
    rewrite final_after. destruct (IH p) as [IHl IHs]. subst l1.
    cbn in IHl, IHs. split.
    + intros Hin. destruct (IHl Hin) as [Hold | Hnew]; [|now right].
      apply in_app_or in Hold as [Hold | [<- | []]]; [now left|].
      right. now exists data.
    + exact IHs.
Qed.

(** Without an error, the target is the result of decoding every readable
    path in order, and the calls are one read per path and one decode per
    readable path. *)
Lemma rangeLookupPaths_success (paths : list string) (config : T) (l : Loader) :
  forall config' l' log,
    rangeLookupPaths paths config l = Ret (config', None) l' log ->
    config' = decodeAll json_Unmarshal (readable P paths) config /\
    log = expectedCalls P paths.
Proof.
  pattern paths, config, l, (rangeLookupPaths paths config l).
  apply rangeLookupPaths_cases; clear paths config l.
  - intros config l config' l' log Heq. injection Heq as <- _ <-. now split.
  - intros p rest config l e Hread Hflag config' l' log Heq. discriminate.
  - intros p rest config l e Hread Hflag l1 IH config' l' log Heq.
    apply after_Ret_inv in Heq as (log2 & Heq & ->).
    destruct (IH _ _ _ Heq) as [-> ->].
    unfold readable, expectedCalls. cbn [flat_map]. rewrite Hread. now split.
  - intros p rest config l data config1 e Hread Hdec Hflag config' l' log Heq.
    discriminate.
  - intros p rest config l data config1 e Hread Hdec Hflag l1 IH config' l' log Heq.
    apply after_Ret_inv in Heq as (log2 & Heq & ->).
    destruct (IH _ _ _ Heq) as [-> ->].
    unfold readable, expectedCalls, decodeAll. cbn [flat_map]. rewrite Hread.
    cbn [app fold_left]. rewrite Hdec. now split.
  - intros p rest config l data config1 Hread Hdec l1 IH config' l' log Heq.
    apply after_Ret_inv in Heq as (log2 & Heq & ->).
    destruct (IH _ _ _ Heq) as [-> ->].
    unfold readable, expectedCalls, decodeAll. cbn [flat_map]. rewrite Hread.
    cbn [app fold_left]. rewrite Hdec. now split.
Qed.

Lemma Merge_nil_r {A : Type} (xs zs : list A) : Merge xs [] zs -> xs = zs.
Proof.
  intros Hm. remember [] as ys eqn:Hys.
  induction Hm as [| x xs ys zs _ IH | y xs ys zs _ IH];
    [reflexivity | now rewrite (IH Hys) | discriminate].
Qed.

Lemma Implements_reset (l l0 : Loader) :
  loaderFlags l0 = loaderFlags l ->
  forall behaviour,
    Implements (set_skippedPaths [] (set_loadedPaths [] l0)) behaviour =
    Implements l behaviour.
Proof. intros Hflags behaviour. unfold Implements. cbn. now rewrite Hflags. Qed.

(** A returning [Load] is a returning [createLookupPaths] followed by the
    loop over its candidates from empty lists; neither changes the flags. *)
Lemma Load_Ret_inv (config config' : T) (l l' : Loader) (err : option error)
    (log : list event) :
  Load config l = Ret (config', err) l' log ->
  exists l0 log0 log1,
    createLookupPaths l = Ret tt l0 log0 /\
    rangeLookupPaths (lookupPaths l0) config
      (set_skippedPaths [] (set_loadedPaths [] l0)) = Ret (config', err) l' log1 /\
    log = log0 ++ log1 /\
    loaderFlags l0 = loaderFlags l /\
    lookupPaths l' = lookupPaths l0.
Proof.
  rewrite Load_run. intros Hrun.
  destruct (keeps_config l) as ((_ & _ & Hflags) & _).
  destruct (createLookupPaths l) as [[] l0 log0 | p l0 log0]; [|discriminate].
  apply after_Ret_inv in Hrun as (log1 & Hrun & ->).
  exists l0, log0, log1. repeat split; try assumption; [now symmetry|].
  destruct (run_split (lookupPaths l0) config
              (set_skippedPaths [] (set_loadedPaths [] l0)))
    as (c & e & lg & done & todo & ld & sk & Hsplit & _).
  rewrite Hsplit in Hrun. injection Hrun as _ _ <- _. reflexivity.
Qed.

(** X7. [Load] never changes [RootPath], [PreservedArgs] or the flags, whether
    it returns a value, returns an error or panics. *)
Theorem Load_preserves_config (config : T) (l : Loader) :
  sameConfig l (final (Load config l)).
Proof.
  rewrite Load_run. destruct (keeps_config l) as (Hsame & _).
  destruct (createLookupPaths l) as [[] l0 log0 | p l0 log0]; [|exact Hsame].
  rewrite final_after.
  destruct (run_split (lookupPaths l0) config
              (set_skippedPaths [] (set_loadedPaths [] l0)))
    as (c & e & lg & done & todo & ld & sk & -> & _).
  exact Hsame.
Qed.

(** X8. [Load] panics only inside [createLookupPaths], that is before it
    resets the lists: after a panic [loadedPaths] and [skippedPaths] still
    hold what they held before the call. *)
Theorem Load_panic_keeps_lists (config : T) (l l' : Loader) (p : panic)
    (log : list event) :
  Load config l = Panic p l' log ->
  createLookupPaths l = Panic p l' log /\
  loadedPaths l' = loadedPaths l /\
  skippedPaths l' = skippedPaths l.
Proof.
  rewrite Load_run. destruct (keeps_config l) as (_ & Hloaded & Hskipped).
  destruct (createLookupPaths l) as [[] l0 log0 | p0 l0 log0].
  - destruct (run_split (lookupPaths l0) config
                (set_skippedPaths [] (set_loadedPaths [] l0)))
      as (c & e & lg & done & todo & ld & sk & -> & _).
    discriminate.
  - intros Heq. injection Heq as <- <- <-. now repeat split.
Qed.

(** X9. Without [UseTest], and with argument paths either off or with
    [PreservedArgs] in the range from [UseFlag] to the largest [int]
    excluded, [Load] cannot panic: it returns, with or without an error. *)
Theorem Load_returns_without_UseTest (config : T) (l : Loader) :
  Implements l UseTest = false ->
  Implements l UseArgumentPaths = false \/ -1 <= PreservedArgs l < maxInt ->
  returns (Load config l) = true.
Proof.
  intros Htest Hcount. rewrite Load_run.
  assert (Hresolve : exists l0 log0, createLookupPaths l = Ret tt l0 log0).
  { destruct (argumentShortCircuit P l) eqn:Hshort.
    - rewrite createLookupPaths_short_run by exact Hshort.
      unfold argumentShortCircuit, UseFlag in Hshort.
      apply andb_prop in Hshort as [Hshort Hlen].
      apply andb_prop in Hshort as [Hargs Hk].
      apply negb_true_iff, Z.eqb_neq in Hk. apply Z.gtb_lt in Hlen.
      destruct Hcount as [Hoff | Hrange]; [congruence|].
      rewrite wrap_small in * by (unfold isInt, minInt, maxInt in *; lia).
      unfold sliceFrom, ret.
      replace (PreservedArgs l + 1 <? 0) with false by (symmetry; apply Z.ltb_ge; lia).
      replace (len (os_Args P) <? PreservedArgs l + 1) with false
        by (symmetry; apply Z.ltb_ge; lia).
      cbn. eauto.
    - rewrite createLookupPaths_default_run by exact Hshort.
      rewrite defaultPaths_run. cbv zeta. rewrite Htest.
      destruct (user_returns P filepath_Join strings_TrimSpace l)
        as (u & log' & ->). eauto. }
  destruct Hresolve as (l0 & log0 & ->).
  destruct (run_split (lookupPaths l0) config
              (set_skippedPaths [] (set_loadedPaths [] l0)))
    as (c & e & lg & done & todo & ld & sk & -> & _).
  reflexivity.
Qed.


(** X11. Every error [Load] returns is the read error of one of the candidates,
    with [IgnoreMissingFiles] off, or the error of decoding the contents
    of one of them, with [IgnoreInvalidFiles] off. *)
Theorem Load_error_provenance (config config' : T) (l l' : Loader)
    (err : error) (log : list event) :
  Load config l = Ret (config', Some err) l' log ->
  exists failing,
    In failing (lookupPaths l') /\
    ((ioutil_ReadFile P failing = Err err /\
      Implements l IgnoreMissingFiles = false) \/
     (exists data config0,
         ioutil_ReadFile P failing = Ok data /\
         json_Unmarshal data config0 = (config', Some err) /\
         Implements l IgnoreInvalidFiles = false)).
Proof.
  intros Hrun.
  apply Load_Ret_inv in Hrun as (l0 & log0 & log1 & _ & Hloop & _ & Hflags & ->).
  apply rangeLookupPaths_error in Hloop as (failing & Hin & Hcase).
  exists failing. split; [exact Hin|].
  unfold Implements in *. cbn in Hcase. rewrite Hflags in Hcase. exact Hcase.
Qed.

(** X12. With both tolerance flags a [Load] that returns reports no error, and
    every candidate, occurrence by occurrence, is in one of the lists. *)
Theorem Load_tolerant_never_fails (config config' : T) (l l' : Loader)
    (err : option error) (log : list event) :
  Implements l IgnoreMissingFiles = true ->
  Implements l IgnoreInvalidFiles = true ->
  Load config l = Ret (config', err) l' log ->
  err = None /\ Merge (loadedPaths l') (skippedPaths l') (lookupPaths l').
Proof.
  intros Hmissing Hinvalid Hrun.
  apply Load_Ret_inv in Hrun as (l0 & log0 & log1 & _ & Hloop & _ & Hflags & ->).
  assert (Hnone : err = None).
  { destruct err as [e|]; [|reflexivity].
    destruct (rangeLookupPaths_error _ _ _ _ _ _ _ Hloop)
      as (failing & _ & Hcase).
    rewrite !(Implements_reset l l0 Hflags) in Hcase.
    destruct Hcase as [[_ Hoff] | (data & c0 & _ & _ & Hoff)]; congruence. }
  split; [exact Hnone|].
  destruct (run_split (lookupPaths l0) config
              (set_skippedPaths [] (set_loadedPaths [] l0)))
    as (c & e & lg & done & todo & ld & sk & Hsplit & Hcands & Hmerge & Hend).
  rewrite Hsplit in Hloop. injection Hloop as _ -> <- _. cbn.
  rewrite Hcands, (Hend Hnone), app_nil_r. exact Hmerge.
Qed.

(** X13. Where the entries of the two lists come from: a loaded path was read;
    a skipped path either could not be read, with [IgnoreMissingFiles]
    set, or was read, with [IgnoreInvalidFiles] set. *)
Theorem Load_lists_provenance (config config' : T) (l l' : Loader)
    (err : option error) (log : list event) :
  Load config l = Ret (config', err) l' log ->
  forall p,
    (In p (loadedPaths l') -> exists data, ioutil_ReadFile P p = Ok data) /\
    (In p (skippedPaths l') ->
     ((exists e, ioutil_ReadFile P p = Err e) /\
      Implements l IgnoreMissingFiles = true) \/
     ((exists data, ioutil_ReadFile P p = Ok data) /\
      Implements l IgnoreInvalidFiles = true)).
Proof.
  intros Hrun p.
  apply Load_Ret_inv in Hrun as (l0 & log0 & log1 & _ & Hloop & _ & Hflags & _).
  destruct (rangeLookupPaths_lists (lookupPaths l0) config
              (set_skippedPaths [] (set_loadedPaths [] l0)) p) as [Hl Hs].
  rewrite Hloop in Hl, Hs. unfold Implements in *. cbn in Hl, Hs.
  rewrite Hflags in Hs. split.
  - intros Hin. destruct (Hl Hin) as [[] | Hread]. exact Hread.
  - intros Hin. destruct (Hs Hin) as [[] | Hcase]. exact Hcase.
Qed.

(** X14. Without tolerance flags, a [Load] that returns no error has skipped
    nothing and loaded every candidate, in order. *)
Theorem Load_strict_success (config config' : T) (l l' : Loader)
    (log : list event) :
  Implements l IgnoreMissingFiles = false ->
  Implements l IgnoreInvalidFiles = false ->
  Load config l = Ret (config', None) l' log ->
  skippedPaths l' = [] /\ loadedPaths l' = lookupPaths l'.
Proof.
  intros Hmissing Hinvalid Hrun.
  apply Load_Ret_inv in Hrun as (l0 & log0 & log1 & _ & Hloop & _ & Hflags & Hcands).
  assert (Hnone : skippedPaths l' = []).
  { destruct (skippedPaths l') as [|p sk] eqn:Hsk; [reflexivity|].
    destruct (rangeLookupPaths_lists (lookupPaths l0) config
                (set_skippedPaths [] (set_loadedPaths [] l0)) p) as [_ Hs].
    rewrite Hloop in Hs. rewrite !(Implements_reset l l0 Hflags) in Hs.
    cbn [final] in Hs. rewrite Hsk in Hs.
    destruct (Hs (or_introl eq_refl)) as [[] | [[_ Hon] | [_ Hon]]]; congruence. }
  split; [exact Hnone|].
  destruct (run_split (lookupPaths l0) config
              (set_skippedPaths [] (set_loadedPaths [] l0)))
    as (c & e & lg & done & todo & ld & sk & Hsplit & Hpaths & Hmerge & Hend).
  rewrite Hsplit in Hloop. injection Hloop as _ He <- _. cbn in *.
  subst sk. rewrite Hpaths, (Hend He), app_nil_r.
  now apply Merge_nil_r.
Qed.

(** X15. When [Load] returns no error, the target is the one obtained by
    decoding into it, in candidate order, the contents of every candidate
    that could be read, including those skipped as invalid, whose decode
    may have written to the target before it failed. *)
Theorem Load_target_layers (config config' : T) (l l' : Loader)
    (log : list event) :
  Load config l = Ret (config', None) l' log ->
  config' = decodeAll json_Unmarshal (readable P (lookupPaths l')) config.
Proof.
  intros Hrun.
  apply Load_Ret_inv in Hrun as (l0 & log0 & log1 & _ & Hloop & _ & _ & ->).
  now apply rangeLookupPaths_success in Hloop as [-> _].
Qed.

(** X16. When [Load] returns no error, the calls it makes after resolving the
    candidates are one [ioutil.ReadFile] per candidate, in order, each
    followed by one [json.Unmarshal] when the read succeeded: no candidate
    is read twice and nothing else is read. *)
Theorem Load_call_log (config config' : T) (l l' : Loader)
    (log : list event) :
  Load config l = Ret (config', None) l' log ->
  exists log0,
    (exists l0, createLookupPaths l = Ret tt l0 log0) /\
    log = log0 ++ expectedCalls P (lookupPaths l').
Proof.
  intros Hrun.
  apply Load_Ret_inv in Hrun as (l0 & log0 & log1 & Hres & Hloop & -> & _ & ->).
  apply rangeLookupPaths_success in Hloop as [_ ->].
  exists log0. split; [|reflexivity]. exists l0. exact Hres.
Qed.

End LoaderOutcome.

(** ** More runs on the concrete process *)

Section MoreRuns.

Import Fixture.

Local Abbreviation resolve := (fun P => createLookupPaths P join trimSpace).
Local Abbreviation load := (fun P => Load P join trimSpace Config unmarshal).

Lemma Implements_any_of_mask_witness :
  Implements (loader UseTest UseFlag) (Z.lor UseTest UseDotUser) =
    Implements (loader UseTest UseFlag) UseTest
    || Implements (loader UseTest UseFlag) UseDotUser /\
  Implements (loader UseTest UseFlag) (Z.lor UseTest UseDotUser) = true /\
  Implements (loader UseTest UseFlag) UseDotUser = false.
Proof.
  split; [|split; reflexivity].
  apply (Implements_any_of_mask (loader UseTest UseFlag) UseTest UseDotUser);
    by_computation.
Defined.

Lemma NewLoader_outcome_witness :
  let lost :=
    {| os_Args := ["/srv/app/app"]; flag_Args := [];
       ioutil_ReadFile := readFile; user_Current := Ok "bob";
       osext_ExecutableFolder := Err "readlink /proc/self/exe: permission denied" |} in
  NewLoader lost UseDotUser =
    Ok {| RootPath := "."; PreservedArgs := UseFlag; lookupPaths := [];
          loadedPaths := []; skippedPaths := []; loaderFlags := UseDotUser |} /\
  NewLoader (process ["/srv/app/app"] []) UseExecutablePath =
    Ok (loader UseExecutablePath UseFlag) /\
  NewLoader lost UseExecutablePath =
    Err "readlink /proc/self/exe: permission denied".
Proof.
  cbv zeta. split; [|split].
  - apply (proj1 (NewLoader_outcome _ UseDotUser)). reflexivity.
  - apply (proj1 (proj2 (NewLoader_outcome (process ["/srv/app/app"] [])
                           UseExecutablePath)) "/srv/app"); reflexivity.
  - apply (proj2 (proj2 (NewLoader_outcome _ UseExecutablePath))); reflexivity.
Defined.

Lemma createLookupPaths_bad_count_panics_witness :
  let P := process ["/srv/app/app"; "/etc/app/a.json"] [] in
  resolve P (loader UseArgumentPaths (-3)) =
    Panic (SliceBoundsOutOfRange (-2) 2) (loader UseArgumentPaths (-3)) [] /\
  resolve P (loader UseArgumentPaths maxInt) =
    Panic (SliceBoundsOutOfRange minInt 2) (loader UseArgumentPaths maxInt) [].
Proof.
  cbv zeta. split.
  - apply (createLookupPaths_bad_count_panics
             (process ["/srv/app/app"; "/etc/app/a.json"] []) join trimSpace
             (loader UseArgumentPaths (-3))); [| | left]; by_computation.
  - apply (createLookupPaths_bad_count_panics
             (process ["/srv/app/app"; "/etc/app/a.json"] []) join trimSpace
             (loader UseArgumentPaths maxInt)); [| | right]; by_computation.
Defined.

Lemma createLookupPaths_few_arguments_witness :
  let P := process ["/srv/app/app"; "-v"] [] in
  resolve P (loader UseArgumentPaths 1) =
    defaultPaths P join trimSpace (loader UseArgumentPaths 1) /\
  lookupPaths (final (resolve P (loader UseArgumentPaths 1))) =
    ["/srv/app/config.json"; "/srv/app/config/mixins/bob.json"].
Proof.
  cbv zeta. split; [|reflexivity].
  apply (createLookupPaths_few_arguments (process ["/srv/app/app"; "-v"] [])
           join trimSpace (loader UseArgumentPaths 1)); by_computation.
Defined.

Lemma Load_panic_keeps_lists_witness :
  let flags := Z.lor UseTest IgnoreMissingFiles in
  let before := final (load (process ["/srv/app/app"] []) zero (loader flags UseFlag)) in
  loadedPaths before = ["/srv/app/config.json"] /\
  skippedPaths before = ["/srv/app/config/mixins/bob.json"] /\
  exists p l' log,
    load (process ["app"] []) zero before = Panic p l' log /\
    resolve (process ["app"] []) before = Panic p l' log /\
    loadedPaths l' = ["/srv/app/config.json"] /\
    skippedPaths l' = ["/srv/app/config/mixins/bob.json"].
Proof.
  cbv zeta. split; [reflexivity|]. split; [reflexivity|].
  eexists _, _, _. split; [vm_compute; reflexivity|].
  eapply (Load_panic_keeps_lists (process ["app"] []) join trimSpace Config
            unmarshal zero).
  vm_compute. reflexivity.
Defined.

Lemma Load_returns_without_UseTest_witness :
  returns (load (process ["app"] []) zero (loader UseDotUser UseFlag)) = true /\
  returns (load (process ["app"] []) zero (loader UseArgumentPaths 7)) = true.
Proof.
  split.
  - apply (Load_returns_without_UseTest (process ["app"] []) join trimSpace
             Config unmarshal zero (loader UseDotUser UseFlag));
      [|left]; by_computation.
  - apply (Load_returns_without_UseTest (process ["app"] []) join trimSpace
             Config unmarshal zero (loader UseArgumentPaths 7));
      [|right]; by_computation.
Defined.


Lemma Load_error_provenance_witness :
  let P := process ["/srv/app/app.test"] [] in
  let l := loader UseTest UseFlag in
  exists config' err l' log,
    load P zero l = Ret (config', Some err) l' log /\
    exists failing,
      In failing (lookupPaths l') /\
      ((ioutil_ReadFile P failing = Err err /\
        Implements l IgnoreMissingFiles = false) \/
       (exists data config0,
           ioutil_ReadFile P failing = Ok data /\
           unmarshal data config0 = (config', Some err) /\
           Implements l IgnoreInvalidFiles = false)).
Proof.
  cbv zeta. eexists _, _, _, _. split; [vm_compute; reflexivity|].
  eapply (Load_error_provenance (process ["/srv/app/app.test"] []) join trimSpace
            Config unmarshal zero _ (loader UseTest UseFlag)).
  vm_compute. reflexivity.
Defined.

Lemma Load_tolerant_never_fails_witness :
  let P := process ["/srv/app/app.test"] [] in
  let l := loader (Z.lor UseTest (Z.lor IgnoreMissingFiles IgnoreInvalidFiles)) UseFlag in
  exists config' err l' log,
    load P zero l = Ret (config', err) l' log /\
    skippedPaths l' = ["/srv/app/config/mixins/test.json"] /\
    err = None /\ Merge (loadedPaths l') (skippedPaths l') (lookupPaths l').
Proof.
  cbv zeta. eexists _, _, _, _. split; [vm_compute; reflexivity|].
  split; [reflexivity|].
  eapply (Load_tolerant_never_fails (process ["/srv/app/app.test"] []) join
            trimSpace Config unmarshal zero _
            (loader (Z.lor UseTest (Z.lor IgnoreMissingFiles IgnoreInvalidFiles))
                    UseFlag));
    [| | vm_compute; reflexivity]; by_computation.
Defined.

Lemma Load_lists_provenance_witness :
  let P := process ["/srv/app/app.test"] [] in
  let l := loader (Z.lor UseTest (Z.lor IgnoreMissingFiles IgnoreInvalidFiles)) UseFlag in
  loadedPaths (final (load P zero l)) = ["/srv/app/config.json"] /\
  skippedPaths (final (load P zero l)) = ["/srv/app/config/mixins/test.json"] /\
  (exists data, ioutil_ReadFile P "/srv/app/config.json" = Ok data) /\
  (((exists e, ioutil_ReadFile P "/srv/app/config/mixins/test.json" = Err e) /\
    Implements l IgnoreMissingFiles = true) \/
   ((exists data, ioutil_ReadFile P "/srv/app/config/mixins/test.json" = Ok data) /\
    Implements l IgnoreInvalidFiles = true)).
Proof.
  cbv zeta. split; [reflexivity|]. split; [reflexivity|].
  assert (Hrun : exists config' err l' log,
             load (process ["/srv/app/app.test"] []) zero
               (loader (Z.lor UseTest (Z.lor IgnoreMissingFiles IgnoreInvalidFiles))
                       UseFlag) = Ret (config', err) l' log /\
             In "/srv/app/config.json" (loadedPaths l') /\
             In "/srv/app/config/mixins/test.json" (skippedPaths l')).
  { eexists _, _, _, _. split; [vm_compute; reflexivity|].
    split; vm_compute; now left. }
  destruct Hrun as (config' & err & l' & log & Hrun & Hloaded & Hskipped).
  split.
  - exact (proj1 (Load_lists_provenance _ _ _ _ _ _ _ _ _ _ _ Hrun _) Hloaded).
  - exact (proj2 (Load_lists_provenance _ _ _ _ _ _ _ _ _ _ _ Hrun _) Hskipped).
Defined.

Lemma Load_strict_success_witness :
  let P := process ["/srv/app/app"] [] in
  let l := loader UseDotUser UseFlag in
  exists config' l' log,
    load P zero l = Ret (config', None) l' log /\
    lookupPaths l' = ["/srv/app/config.json"; "/srv/app/config/mixins/alice.json"] /\
    skippedPaths l' = [] /\ loadedPaths l' = lookupPaths l'.
Proof.
  cbv zeta. eexists _, _, _. split; [vm_compute; reflexivity|].
  split; [reflexivity|].
  eapply (Load_strict_success (process ["/srv/app/app"] []) join trimSpace
            Config unmarshal zero _ (loader UseDotUser UseFlag));
    [| | vm_compute; reflexivity]; by_computation.
Defined.

Lemma Load_target_layers_witness :
  let P := process ["/srv/app/app.test"] [] in
  let l := loader (Z.lor UseTest IgnoreInvalidFiles) UseFlag in
  exists config' l' log,
    load P zero l = Ret (config', None) l' log /\
    skippedPaths l' = ["/srv/app/config/mixins/test.json"] /\
    config' = {| Name := "dev"; Port := 8080 |} /\
    config' = decodeAll unmarshal (readable P (lookupPaths l')) zero.
Proof.
  cbv zeta. eexists _, _, _. split; [vm_compute; reflexivity|].
  split; [reflexivity|]. split; [reflexivity|].
  eapply (Load_target_layers (process ["/srv/app/app.test"] []) join trimSpace
            Config unmarshal zero _
            (loader (Z.lor UseTest IgnoreInvalidFiles) UseFlag)).
  vm_compute. reflexivity.
Defined.

Lemma Load_call_log_witness :
  let P := process ["/srv/app/app"] [] in
  let l := loader (Z.lor UseDotUser IgnoreMissingFiles) UseFlag in
  exists config' l' log,
    load P zero l = Ret (config', None) l' log /\
    exists log0,
      (exists l0, resolve P l = Ret tt l0 log0) /\
      log = log0 ++ expectedCalls P (lookupPaths l').
Proof.
  cbv zeta. eexists _, _, _. split; [vm_compute; reflexivity|].
  eapply (Load_call_log (process ["/srv/app/app"] []) join trimSpace
            Config unmarshal zero _
            (loader (Z.lor UseDotUser IgnoreMissingFiles) UseFlag)).
  vm_compute. reflexivity.
Defined.

(** C5, on the code. A loader made by [NewLoader] with [UseTest], in a
    program started as [app], uses the default sequence; [app] does not
    end with [.test] and the user identity is [bob], so the mixin should
    be [config/mixins/bob.json]. Instead [createLookupPaths], and [Load]
    with it, panics in [isTest] on [runfile[len(runfile)-5:]], with the
    base path alone in [lookupPaths]. *)
Theorem createLookupPaths_short_name_panics_before_user_mixin :
  let P := process ["app"] [] in
  exists l,
    NewLoader P (Z.lor UseTest UseExecutablePath) = Ok l /\
    Implements l UseTest = true /\
    argumentShortCircuit P l = false /\
    ~ HasSuffix "app" ".test" /\
    user P join trimSpace l = Ret "bob" l [CallUserCurrent] /\
    resolve P l =
      Panic (SliceBoundsOutOfRange (-2) 3)
            (set_lookupPaths ["/srv/app/config.json"] l) [] /\
    load P zero l =
      Panic (SliceBoundsOutOfRange (-2) 3)
            (set_lookupPaths ["/srv/app/config.json"] l) [].
Proof.
  cbv zeta. eexists. split; [vm_compute; reflexivity|].
  split; [reflexivity|]. split; [reflexivity|]. split.
  - intros [stem Hstem]. apply (f_equal String.length) in Hstem.
    rewrite length_append in Hstem. cbn in Hstem. lia.
  - repeat split.
Qed.


End MoreRuns.
